(** * Sparvio Serial Protocol (uas_sparvio): node, framing and registry models

    Shallow embedding of the parts of the Python sources that the
    specification's properties speak about:

    - [core/framing.py]       LineReader (module [Framing])
    - [sspt/bytebuffer.py]    ByteIterator (module [Bytebuffer])
    - [sspt/pyObjects.py]     FixpointTypeClass / Fixpoint (module [PyObjects])
    - [sspt/ontology.py]      RegistryClass.add (module [Ontology])
    - [core/componentbase.py] ComponentBase (module [Componentbase])
    - [core/network.py]       Central (module [Network])

    Python integers are [Z], byte arrays are [list byte], dictionaries are
    [gmap]s (or association lists where the iteration order is visible),
    object identity is an explicit reference, and a method that can raise
    returns in an error monad that keeps the mutated state. *)

From Stdlib Require Import ZArith List Lia Bool.
From Stdlib Require Import Strings.String Strings.Ascii Strings.Byte.
From Equations Require Import Equations.
From stdpp Require Import gmap strings list fin_maps pretty.
Import ListNotations.

Local Open Scope Z_scope.

(* ===================================================================== *)
(** ** Python exceptions and the state-and-exception monad *)
(* ===================================================================== *)

(** The exceptions the modelled methods raise. *)
Inductive Exn :=
| AssertionError                   (* a failed [assert] *)
| KeyError                         (* [d[k]] with [k] not in [d] *)
| ValueError                       (* [l.index(x)] with [x] not in [l] *)
| TypeException (text : string)    (* pyObjects.TypeException *)
| ParseError (text : string)       (* source.ParseError, from [source.error] *)
| Exception (text : string).       (* [raise Exception(text)] *)

Inductive Res (A : Type) :=
| Ok (a : A)
| Raise (e : Exn).
Arguments Ok {A} a.
Arguments Raise {A} e.

(** A method of an object with mutable state [S]: it returns or raises,
    and either way leaves the state it has reached. *)
Definition M (S A : Type) : Type := S -> Res A * S.

Definition ret {S A} (a : A) : M S A := fun s => (Ok a, s).
Definition raise {S A} (e : Exn) : M S A := fun s => (Raise e, s).
Definition bind {S A B} (m : M S A) (k : A -> M S B) : M S B :=
  fun s => match m s with
           | (Ok a, s') => k a s'
           | (Raise e, s') => (Raise e, s')
           end.
Definition get {S} : M S S := fun s => (Ok s, s).
Definition modify {S} (f : S -> S) : M S unit := fun s => (Ok tt, f s).
Definition assert {S} (b : bool) : M S unit :=
  if b then ret tt else raise AssertionError.
Definition when {S} (b : bool) (m : M S unit) : M S unit :=
  if b then m else ret tt.

Declare Scope py_scope.
Delimit Scope py_scope with py.
Notation "'let*' x ':=' m 'in' k" := (bind m (fun x => k))
  (at level 10, x name, m at level 100, k at level 200) : py_scope.
Notation "m '>>' k" := (bind m (fun _ => k))
  (at level 90, right associativity) : py_scope.

(* ===================================================================== *)
(** ** core/framing.py: LineReader *)
(* ===================================================================== *)

Module Framing.

(** [ord('\r')] and [ord('\n')]. *)
Definition CR : byte := x0d.
Definition LF : byte := x0a.

(** The value of [self._last_char]: [None], ['\n'] or ['\r']. *)
Definition char_LF : ascii := ascii_of_byte LF.
Definition char_CR : ascii := ascii_of_byte CR.

(** What a call of [data_received] does to the outside: a call of
    [self._on_line_cb(s)], or a warning printed on stdout. *)
Inductive Output :=
| OnLine (s : string)
| Print (text : string).

Record LineReader := mkLineReader {
  _data : list byte;            (* self._data = bytearray() *)
  _last_char : option ascii     (* self._last_char = None *)
}.

(** [LineReader.__init__] *)
Definition init : LineReader :=
  {| _data := []; _last_char := None |}.

(** [bytearray.find(c)]: index of the first occurrence, or -1. *)
Fixpoint find (data : list byte) (c : byte) : Z :=
  match data with
  | [] => -1
  | b :: rest =>
      if Byte.eqb b c then 0
      else let i := find rest c in
           if i =? -1 then -1 else i + 1
  end.

(** [data[:ix]] and [data[ix:]] for the non-negative [ix] the loop uses. *)
Definition slice_to (data : list byte) (ix : Z) : list byte :=
  firstn (Z.to_nat ix) data.
Definition slice_from (data : list byte) (ix : Z) : list byte :=
  skipn (Z.to_nat ix) data.

(** [line.decode(encoding='ascii')]: [None] stands for the
    UnicodeDecodeError raised on a byte above 127. *)
Definition decode_ascii (line : list byte) : option string :=
  if forallb (fun b => (Byte.to_N b <? 128)%N) line
  then Some (string_of_list_byte line)
  else None.

(** Truth value of a bytearray and of a str. *)
Definition truthy_bytes (l : list byte) : bool :=
  match l with [] => false | _ => true end.
Definition truthy_str (s : string) : bool :=
  match s with EmptyString => false | _ => true end.

Definition last_char_is (st : LineReader) (c : ascii) : bool :=
  match _last_char st with
  | Some c' => Ascii.eqb c' c
  | None => false
  end.

(** One pass through the body of [while True:].  [None] is [break]. *)
Definition iteration (st : LineReader) : option (LineReader * list Output) :=
  let data := _data st in
  let ix := find data CR in
  let ix2 := find data LF in
  if (ix =? -1) && (ix2 =? -1) then None
  else if (ix =? -1) || ((ix2 >? -1) && (ix2 <? ix)) then
    (* \n comes first *)
    let line := slice_to data ix2 in
    let out :=
      if truthy_bytes line || last_char_is st char_LF then
        match decode_ascii line with
        | None => [Print "Warning: line is not ASCII"]    (* s = None *)
        | Some s => if truthy_str s then [OnLine s] else []  (* if s: *)
        end
      else [] in
    Some ({| _data := slice_from data (ix2 + 1);
             _last_char := Some char_LF |}, out)
  else if (ix2 =? -1) || ((ix >? -1) && (ix <? ix2)) then
    (* \r comes first *)
    let line := slice_to data ix in
    let out :=
      if truthy_bytes line || last_char_is st char_CR then
        match decode_ascii line with
        | None => [Print "Warning: Line cannot be decoded"]
        | Some decoded => [OnLine decoded]    (* if decoded is not None: *)
        end
      else [] in
    Some ({| _data := slice_from data (ix + 1);
             _last_char := Some char_CR |}, out)
  else
    (* Neither test holds: the source would go round the loop again with
       nothing changed.  [iteration_exhaustive] shows this is never
       reached, so the value given here is immaterial. *)
    None.

Lemma find_range data c : find data c = -1 \/ 0 <= find data c < Z.of_nat (length data).
Proof.
  induction data as [|b rest IH]; simpl; [now left|].
  destruct (Byte.eqb b c); [right; lia|].
  destruct (Z.eqb_spec (find rest c) (-1)); [now left|right; lia].
Qed.

Lemma iteration_shrinks st st' out :
  iteration st = Some (st', out) ->
  (length (_data st') < length (_data st))%nat.
Proof.
  unfold iteration, slice_from.
  pose proof (find_range (_data st) CR) as HCR.
  pose proof (find_range (_data st) LF) as HLF.
  repeat match goal with
         | |- context [if ?b then _ else _] => destruct b eqn:?
         end; intros [= <- <-]; simpl; rewrite length_skipn; lia.
Qed.

(** Keeps the equation of a scrutinee for the termination argument. *)
Definition inspect {A} (a : A) : {b | a = b} := exist _ a eq_refl.

(** The [while True:] loop of [data_received], run to its [break]; the
    buffer shrinks by at least the terminator on every pass. *)
Equations? loop (st : LineReader) : LineReader * list Output
  by wf (length (_data st)) lt :=
  loop st with inspect (iteration st) := {
    | exist _ None _ => (st, []);
    | exist _ (Some (st', out)) Heq =>
        let r := loop st' in (fst r, out ++ snd r) }.
Proof. eapply iteration_shrinks; eassumption. Qed.

(** [LineReader.data_received]: [self._data += data], then the loop. *)
Definition data_received (st : LineReader) (data : list byte)
  : LineReader * list Output :=
  loop {| _data := _data st ++ data; _last_char := _last_char st |}.

(** The lines handed to [_on_line_cb], in order. *)
Definition lines (out : list Output) : list string :=
  flat_map (fun o => match o with OnLine s => [s] | Print _ => [] end) out.

(** Successive calls of [data_received], one per chunk. *)
Fixpoint feed (st : LineReader) (chunks : list (list byte))
  : LineReader * list Output :=
  match chunks with
  | [] => (st, [])
  | c :: cs =>
      let r1 := data_received st c in
      let r2 := feed (fst r1) cs in
      (fst r2, snd r1 ++ snd r2)
  end.

(** [connection_lost]: discard any buffered data. *)
Definition connection_lost (st : LineReader) : LineReader :=
  {| _data := []; _last_char := _last_char st |}.

(** The bytes of an ASCII literal. *)
Definition b (s : string) : list byte := list_byte_of_string s.


(** The frame that [SspAsciiLineProtocol.encode] and
    [HexLineProtocol.encode] build around their text: ["\n" + text + "\n"]. *)
Definition frame (text : string) : list byte := LF :: b text ++ [LF].

(** A text that survives the reader: not empty, pure ASCII, and free of
    CR and LF. *)
Definition plain (text : string) : bool :=
  truthy_str text
  && forallb (fun c => (Byte.to_N c <? 128)%N) (b text)
  && (find (b text) CR =? -1) && (find (b text) LF =? -1).

(** The ways a sender may end a line. *)
Inductive Terminator := T_LF | T_CR | T_CRLF | T_LFCR.

Definition terminator_bytes (t : Terminator) : list byte :=
  match t with
  | T_LF => [LF]
  | T_CR => [CR]
  | T_CRLF => [CR; LF]
  | T_LFCR => [LF; CR]
  end.

End Framing.

(** Case analysis on the integer comparisons of a goal. *)
Ltac destr_cmp :=
  repeat match goal with
         | |- context [?a =? ?b] => destruct (Z.eqb_spec a b)
         | |- context [?a <? ?b] => destruct (Z.ltb_spec a b)
         end.

Module FramingFacts.
Import Framing.

Lemma loop_unfold st :
  loop st =
  match iteration st with
  | None => (st, [])
  | Some (st', out) => (fst (loop st'), out ++ snd (loop st'))
  end.
Proof.
  funelim (loop st);
    match goal with E : iteration _ = _ |- _ => now rewrite E end.
Qed.

Lemma find_app d1 d2 c :
  find (d1 ++ d2) c =
  if find d1 c =? -1
  then (if find d2 c =? -1 then -1 else Z.of_nat (length d1) + find d2 c)
  else find d1 c.
Proof.
  induction d1 as [|x d1 IH]; cbn [find app length].
  - simpl. destruct (Z.eqb_spec (find d2 c) (-1)); lia.
  - destruct (Byte.eqb x c); [reflexivity|].
    rewrite IH, Nat2Z.inj_succ. pose proof (find_range d1 c). pose proof (find_range d2 c).
    destruct (Z.eqb_spec (find d1 c) (-1)); destruct (Z.eqb_spec (find d2 c) (-1));
      repeat match goal with
             | |- context [?a =? ?b] => destruct (Z.eqb_spec a b)
             end; lia.
Qed.

Lemma find_CR_LF_distinct data :
  find data CR = find data LF -> find data CR = -1.
Proof.
  induction data as [|x d IH]; simpl; [reflexivity|].
  pose proof (find_range d CR). pose proof (find_range d LF).
  destruct (Byte.eqb x CR) eqn:E1, (Byte.eqb x LF) eqn:E2.
  - apply Byte.byte_dec_bl in E1, E2. subst x. discriminate.
  - destruct (Z.eqb_spec (find d LF) (-1)); lia.
  - destruct (Z.eqb_spec (find d CR) (-1)); lia.
  - destruct (Z.eqb_spec (find d CR) (-1)); destruct (Z.eqb_spec (find d LF) (-1));
      lia.
Qed.

(** The last [else] of [iteration] is dead code: whenever a terminator is
    present, one of the two tests of the source holds. *)
Lemma iteration_exhaustive st :
  let ix := find (_data st) CR in
  let ix2 := find (_data st) LF in
  (ix =? -1) && (ix2 =? -1) = false ->
  (ix =? -1) || ((ix2 >? -1) && (ix2 <? ix)) = false ->
  (ix2 =? -1) || ((ix >? -1) && (ix <? ix2)) = true.
Proof.
  intros ix ix2.
  pose proof (find_CR_LF_distinct (_data st)) as Hd. fold ix ix2 in Hd.
  pose proof (find_range (_data st) CR) as HCR. fold ix in HCR.
  pose proof (find_range (_data st) LF) as HLF. fold ix2 in HLF.
  rewrite !Z.gtb_ltb. clearbody ix ix2.
  destr_cmp; cbn [andb orb]; intros; try discriminate; try reflexivity; lia.
Qed.

Lemma slice_to_app d1 d2 i :
  0 <= i <= Z.of_nat (length d1) -> slice_to (d1 ++ d2) i = slice_to d1 i.
Proof.
  intros Hi. unfold slice_to. rewrite firstn_app.
  replace (Z.to_nat i - length d1)%nat with 0%nat by lia.
  simpl. apply app_nil_r.
Qed.

Lemma slice_from_app d1 d2 i :
  0 <= i <= Z.of_nat (length d1) ->
  slice_from (d1 ++ d2) i = slice_from d1 i ++ d2.
Proof.
  intros Hi. unfold slice_from. rewrite skipn_app.
  replace (Z.to_nat i - length d1)%nat with 0%nat by lia.
  reflexivity.
Qed.

(** A pass that finds its terminator inside [d1] is not changed by bytes
    appended after [d1]. *)
Lemma find_app_cases d1 d2 c :
  (find d1 c <> -1 /\ find (d1 ++ d2) c = find d1 c)
  \/ (find d1 c = -1
      /\ (find (d1 ++ d2) c = -1 \/ Z.of_nat (length d1) <= find (d1 ++ d2) c)).
Proof.
  rewrite find_app. pose proof (find_range d2 c).
  destruct (Z.eqb_spec (find d1 c) (-1)); [right|left; auto].
  split; [assumption|]. destruct (Z.eqb_spec (find d2 c) (-1)); lia.
Qed.

Lemma iteration_app d1 d2 last st' out :
  iteration {| _data := d1; _last_char := last |} = Some (st', out) ->
  iteration {| _data := d1 ++ d2; _last_char := last |} =
  Some ({| _data := _data st' ++ d2; _last_char := _last_char st' |}, out).
Proof.
  unfold iteration, last_char_is; cbn [_data _last_char].
  pose proof (find_range d1 CR) as HCR. pose proof (find_range d1 LF) as HLF.
  pose proof (find_app_cases d1 d2 CR) as HaCR.
  pose proof (find_app_cases d1 d2 LF) as HaLF.
  pose proof (find_CR_LF_distinct d1) as Hd.
  set (i1 := find d1 CR) in *. set (i2 := find d1 LF) in *.
  set (a1 := find (d1 ++ d2) CR) in *. set (a2 := find (d1 ++ d2) LF) in *.
  clearbody i1 i2 a1 a2. rewrite !Z.gtb_ltb.
  destruct ((i1 =? -1) && (i2 =? -1)) eqn:C1; [discriminate|].
  assert (C1' : (a1 =? -1) && (a2 =? -1) = false).
  { revert C1. destr_cmp; cbn [andb]; intros; try reflexivity; try discriminate; lia. }
  assert (C2' : (a1 =? -1) || ((-1 <? a2) && (a2 <? a1))
                = (i1 =? -1) || ((-1 <? i2) && (i2 <? i1))).
  { revert C1. destr_cmp; cbn [andb orb]; intros; try reflexivity;
      try discriminate; lia. }
  assert (C3' : (a2 =? -1) || ((-1 <? a1) && (a1 <? a2))
                = (i2 =? -1) || ((-1 <? i1) && (i1 <? i2))).
  { revert C1. destr_cmp; cbn [andb orb]; intros; try reflexivity;
      try discriminate; lia. }
  rewrite C1', C2', C3'.
  destruct ((i1 =? -1) || ((-1 <? i2) && (i2 <? i1))) eqn:C2.
  - assert (a2 = i2 /\ 0 <= i2) as [-> ?].
    { revert C1 C2. destr_cmp; cbn [andb orb]; intros; try discriminate; lia. }
    intros [= <- <-]; cbn [_data _last_char].
    now rewrite slice_to_app, slice_from_app by lia.
  - destruct ((i2 =? -1) || ((-1 <? i1) && (i1 <? i2))) eqn:C3; [|discriminate].
    assert (a1 = i1 /\ 0 <= i1) as [-> ?].
    { revert C1 C2 C3. destr_cmp; cbn [andb orb]; intros; try discriminate; lia. }
    intros [= <- <-]; cbn [_data _last_char].
    now rewrite slice_to_app, slice_from_app by lia.
Qed.

(** Running the loop on a buffer extended by [d2] is running it on the
    buffer, then on what is left with [d2] appended. *)
Lemma loop_app d2 :
  forall n d1 last, (length d1 < n)%nat ->
  loop {| _data := d1 ++ d2; _last_char := last |} =
  let r1 := loop {| _data := d1; _last_char := last |} in
  let r2 := loop {| _data := _data (fst r1) ++ d2;
                    _last_char := _last_char (fst r1) |} in
  (fst r2, snd r1 ++ snd r2).
Proof.
  induction n as [|n IH]; intros d1 last Hlen; [lia|].
  cbn zeta.
  rewrite (loop_unfold {| _data := d1; _last_char := last |}).
  destruct (iteration {| _data := d1; _last_char := last |})
    as [[st' out]|] eqn:Hit.
  - rewrite (loop_unfold {| _data := d1 ++ d2; _last_char := last |}).
    rewrite (iteration_app _ _ _ _ _ Hit).
    pose proof (iteration_shrinks _ _ _ Hit) as Hsh. cbn [_data] in Hsh.
    destruct st' as [r1 l']. cbn [_data _last_char fst snd] in *.
    rewrite (IH r1 l') by lia. cbn zeta. cbn [fst snd].
    now rewrite app_assoc.
  - cbn [fst snd _data _last_char app].
    now destruct (loop {| _data := d1 ++ d2; _last_char := last |}).
Qed.

(** When the loop has left, no terminator remains in the buffer. *)
Lemma loop_drained :
  forall n st, (length (_data st) < n)%nat -> iteration (fst (loop st)) = None.
Proof.
  induction n as [|n IH]; intros st Hlen; [lia|].
  rewrite loop_unfold.
  destruct (iteration st) as [[st' out]|] eqn:Hit; cbn [fst].
  - apply IH. pose proof (iteration_shrinks _ _ _ Hit). lia.
  - exact Hit.
Qed.

Lemma data_received_drained st data :
  iteration (fst (data_received st data)) = None.
Proof. unfold data_received. eapply loop_drained. apply Nat.lt_succ_diag_r. Qed.

Lemma data_received_nil st :
  iteration st = None -> data_received st [] = (st, []).
Proof.
  intros H. unfold data_received. rewrite app_nil_r.
  destruct st as [d l]. cbn [_data _last_char].
  now rewrite loop_unfold, H.
Qed.

Lemma data_received_app st c rest :
  data_received st (c ++ rest) =
  let r1 := data_received st c in
  let r2 := data_received (fst r1) rest in
  (fst r2, snd r1 ++ snd r2).
Proof.
  unfold data_received. rewrite app_assoc.
  apply (loop_app rest (S (length (_data st ++ c)))). apply Nat.lt_succ_diag_r.
Qed.

Lemma feed_concat chunks :
  forall st, iteration st = None ->
  feed st chunks = data_received st (concat chunks).
Proof.
  induction chunks as [|c cs IH]; intros st Hst; cbn [feed concat].
  - now rewrite data_received_nil.
  - rewrite data_received_app. cbn zeta.
    now rewrite (IH _ (data_received_drained st c)).
Qed.

(** A LF found at the very start of the buffer never produces a callback,
    whatever the previous terminator was: the empty [line] decodes to the
    empty string, which [if s:] rejects. *)
Lemma iteration_LF_at_head rest last :
  iteration {| _data := LF :: rest; _last_char := last |} =
  Some ({| _data := rest; _last_char := Some char_LF |}, []).
Proof.
  unfold iteration, last_char_is; cbn [_data _last_char find].
  change (Byte.eqb LF CR) with false. change (Byte.eqb LF LF) with true.
  cbn iota. pose proof (find_range rest CR) as HCR.
  rewrite Z.gtb_ltb.
  destruct (Z.eqb_spec (find rest CR) (-1)) as [E|E]; cbn [andb orb].
  - cbn. now destruct (match last with Some c' => _ | None => _ end).
  - destr_cmp; try lia. cbn.
    now destruct (match last with Some c' => _ | None => _ end).
Qed.

(** The sibling branch: a CR at the start of the buffer directly after a
    CR does hand the empty line to the callback. *)
Lemma iteration_CR_after_CR rest :
  iteration {| _data := CR :: rest; _last_char := Some char_CR |} =
  Some ({| _data := rest; _last_char := Some char_CR |}, [OnLine ""]).
Proof.
  unfold iteration, last_char_is; cbn [_data _last_char find].
  change (Byte.eqb CR CR) with true. change (Byte.eqb CR LF) with false.
  cbn iota. pose proof (find_range rest LF) as HLF.
  rewrite !Z.gtb_ltb.
  destruct (Z.eqb_spec (find rest LF) (-1)) as [E|E]; cbn [andb orb].
  - reflexivity.
  - destr_cmp; try lia. reflexivity.
Qed.

(** C3 (the code at the inputs of the claim).  A fresh reader fed
    "hello\r\nabc\r\n" calls back with "hello" and "abc"; fed "hello\r\r"
    it calls back with "hello" and the empty line; but fed "hello\n\n" it
    calls back with "hello" only: the empty line between two LF is lost. *)
Theorem data_received_terminator_examples :
  lines (snd (data_received init (b "hello" ++ [CR; LF] ++ b "abc" ++ [CR; LF])))
    = ["hello"; "abc"]
  /\ lines (snd (data_received init (b "hello" ++ [LF; CR] ++ b "abc" ++ [LF; CR])))
    = ["hello"; "abc"]
  /\ lines (snd (data_received init (b "hello" ++ [CR; CR]))) = ["hello"; ""]
  /\ lines (snd (data_received init (b "hello" ++ [LF; LF]))) = ["hello"]
  /\ snd (data_received init (b "hello" ++ [LF; LF])) = [OnLine "hello"].
Proof. repeat split; reflexivity. Qed.

(** C7.  Chunking invariance of the line reader: whatever way a byte
    sequence is cut into successive chunks, handing the chunks one by one
    to [data_received] of a fresh [LineReader] makes the same calls of
    the line callback, in the same order (and prints the same warnings,
    and leaves the reader in the same state), as handing over the whole
    sequence in one call. *)
Theorem data_received_chunking_invariant (chunks : list (list byte)) :
  feed init chunks = data_received init (concat chunks)
  /\ lines (snd (feed init chunks))
     = lines (snd (data_received init (concat chunks))).
Proof.
  assert (feed init chunks = data_received init (concat chunks)) as H
    by (apply feed_concat; reflexivity).
  split; [exact H | now rewrite H].
Qed.

Lemma iteration_None st :
  iteration st = None ->
  find (_data st) CR = -1 /\ find (_data st) LF = -1.
Proof.
  intros H. pose proof (iteration_exhaustive st) as Hex. cbn zeta in Hex.
  unfold iteration in H.
  destruct ((find (_data st) CR =? -1) && (find (_data st) LF =? -1)) eqn:E1.
  - apply andb_true_iff in E1 as [?%Z.eqb_eq ?%Z.eqb_eq]. now split.
  - destruct ((find (_data st) CR =? -1)
              || (find (_data st) LF >? -1) && (find (_data st) LF <? find (_data st) CR))
      eqn:E2; [discriminate|].
    rewrite (Hex eq_refl eq_refl) in H. discriminate.
Qed.

Lemma find_slice_to data c : forall k,
  find data c = -1 \/ k <= find data c -> find (slice_to data k) c = -1.
Proof.
  unfold slice_to.
  induction data as [|x rest IH]; intros k Hk.
  - now rewrite firstn_nil.
  - destruct (Z.leb_spec k 0) as [Hle|Hgt].
    + replace (Z.to_nat k) with 0%nat by lia. reflexivity.
    + replace (Z.to_nat k) with (S (Z.to_nat (k - 1))) by lia.
      cbn [firstn find] in *. revert Hk.
      destruct (Byte.eqb x c); [lia|]. intros Hk.
      rewrite (IH (k - 1)); [reflexivity|].
      pose proof (find_range rest c). revert Hk.
      destruct (Z.eqb_spec (find rest c) (-1)); [now left | right; lia].
Qed.

Lemma decode_ascii_Some line s :
  decode_ascii line = Some s ->
  b s = line /\ forallb (fun c => (Byte.to_N c <? 128)%N) line = true.
Proof.
  unfold decode_ascii, b.
  destruct (forallb _ line) eqn:E; [|discriminate].
  intros [= <-]. split; [apply list_byte_of_string_of_list_byte | reflexivity].
Qed.

(** What one pass hands to the callback was cut off before the first
    terminator, and has passed the ASCII decoder. *)
Lemma iteration_lines st st' out s :
  iteration st = Some (st', out) -> In s (lines out) ->
  forallb (fun c => (Byte.to_N c <? 128)%N) (b s) = true
  /\ find (b s) CR = -1 /\ find (b s) LF = -1.
Proof.
  unfold iteration.
  set (ix := find (_data st) CR). set (ix2 := find (_data st) LF).
  destruct ((ix =? -1) && (ix2 =? -1)) eqn:E1; [discriminate|].
  destruct ((ix =? -1) || (ix2 >? -1) && (ix2 <? ix)) eqn:E2.
  - intros [= <- <-].
    destruct (truthy_bytes _ || _); [|intros []].
    destruct (decode_ascii _) as [s0|] eqn:Hd; [|intros []].
    destruct (truthy_str s0); [|intros []].
    intros [<-|[]]. apply decode_ascii_Some in Hd as [-> Hascii].
    split; [exact Hascii|]. split; apply find_slice_to; fold ix ix2.
    + rewrite Z.gtb_ltb in E2. revert E2. destr_cmp; cbn; intros; try discriminate; lia.
    + right; lia.
  - destruct ((ix2 =? -1) || (ix >? -1) && (ix <? ix2)) eqn:E3; [|discriminate].
    intros [= <- <-].
    destruct (truthy_bytes _ || _); [|intros []].
    destruct (decode_ascii _) as [s0|] eqn:Hd; [|intros []].
    intros [<-|[]]. apply decode_ascii_Some in Hd as [-> Hascii].
    split; [exact Hascii|]. split; apply find_slice_to; fold ix ix2.
    + right; lia.
    + rewrite Z.gtb_ltb in E3. revert E3. destr_cmp; cbn; intros; try discriminate; lia.
Qed.

Lemma lines_app o1 o2 : lines (o1 ++ o2) = lines o1 ++ lines o2.
Proof. unfold lines. apply flat_map_app. Qed.

Lemma loop_lines : forall n st s, (length (_data st) < n)%nat ->
  In s (lines (snd (loop st))) ->
  forallb (fun c => (Byte.to_N c <? 128)%N) (b s) = true
  /\ find (b s) CR = -1 /\ find (b s) LF = -1.
Proof.
  induction n as [|n IH]; intros st s Hlen; [lia|].
  rewrite loop_unfold.
  destruct (iteration st) as [[st' out]|] eqn:Hit; cbn [snd]; [|intros []].
  rewrite lines_app, in_app_iff. intros [Hin|Hin].
  - eapply iteration_lines; eassumption.
  - apply (IH st'); [|exact Hin].
    pose proof (iteration_shrinks _ _ _ Hit). lia.
Qed.

(** X1.  Whatever is fed to any reader, the buffer kept for the next call
    holds no CR and no LF. *)
Theorem data_received_buffer_has_no_terminator st data :
  find (_data (fst (data_received st data))) CR = -1
  /\ find (_data (fst (data_received st data))) LF = -1.
Proof. apply iteration_None, data_received_drained. Qed.

(** X2.  Every line handed to the callback is pure ASCII and contains
    neither CR nor LF. *)
Theorem data_received_lines_are_plain_ascii st data :
  Forall (fun s =>
            forallb (fun c => (Byte.to_N c <? 128)%N) (b s) = true
            /\ find (b s) CR = -1 /\ find (b s) LF = -1)
         (lines (snd (data_received st data))).
Proof.
  apply List.Forall_forall. intros s Hin.
  unfold data_received in Hin.
  eapply loop_lines; [apply Nat.lt_succ_diag_r | exact Hin].
Qed.


Lemma plain_inv text :
  plain text = true ->
  truthy_bytes (b text) = true /\ truthy_str text = true
  /\ decode_ascii (b text) = Some text
  /\ find (b text) CR = -1 /\ find (b text) LF = -1.
Proof.
  unfold plain. rewrite !andb_true_iff, !Z.eqb_eq.
  intros [[[Ht Ha] HCR] HLF]. repeat split; try assumption.
  - destruct text; [discriminate|reflexivity].
  - unfold decode_ascii. rewrite Ha. unfold b.
    now rewrite string_of_list_byte_of_string.
Qed.

Lemma find_head_other c c' rest :
  Byte.eqb c c' = false -> find (c :: rest) c' = -1 \/ 1 <= find (c :: rest) c'.
Proof.
  intros E. cbn [find]. rewrite E. pose proof (find_range rest c').
  destruct (Z.eqb_spec (find rest c') (-1)); [now left | right; lia].
Qed.

Lemma find_head_same c rest : find (c :: rest) c = 0.
Proof. cbn [find]. now rewrite (Byte.byte_dec_lb eq_refl). Qed.

Lemma slice_to_length (l r : list byte) :
  slice_to (l ++ r) (Z.of_nat (length l)) = l.
Proof.
  unfold slice_to. rewrite Nat2Z.id, firstn_app, Nat.sub_diag, firstn_all.
  cbn [firstn]. apply app_nil_r.
Qed.

Lemma slice_from_length (l r : list byte) c :
  slice_from (l ++ c :: r) (Z.of_nat (length l) + 1) = r.
Proof.
  unfold slice_from.
  replace (Z.to_nat (Z.of_nat (length l) + 1)) with (S (length l)) by lia.
  rewrite skipn_app, skipn_all2 by lia.
  now replace (S (length l) - length l)%nat with 1%nat by lia.
Qed.

(** Where the first terminator is when a terminator-free text is
    followed by the byte [c]. *)
Lemma find_after_text (l rest : list byte) c c' :
  find l c = -1 -> find l c' = -1 -> Byte.eqb c c' = false ->
  find (l ++ c :: rest) c = Z.of_nat (length l)
  /\ (find (l ++ c :: rest) c' = -1
      \/ Z.of_nat (length l) < find (l ++ c :: rest) c').
Proof.
  intros Hc Hc' E. rewrite !find_app, Hc, Hc', find_head_same.
  change (-1 =? -1) with true. cbn iota. split.
  - cbn. lia.
  - destruct (find_head_other c c' rest E) as [->|H]; [now left|].
    destruct (Z.eqb_spec (find (c :: rest) c') (-1)); [now left | right; lia].
Qed.

(** A plain text followed by LF is handed over, whatever came before. *)
Lemma iteration_text_LF text rest last :
  plain text = true ->
  iteration {| _data := b text ++ LF :: rest; _last_char := last |} =
  Some ({| _data := rest; _last_char := Some char_LF |}, [OnLine text]).
Proof.
  intros (Hb & Hs & Hd & HCR & HLF)%plain_inv.
  destruct (find_after_text (b text) rest LF CR HLF HCR eq_refl) as [E2 E1].
  unfold iteration. cbn [_data]. rewrite E2, Z.gtb_ltb.
  replace ((find (b text ++ LF :: rest) CR =? -1)
           && (Z.of_nat (length (b text)) =? -1)) with false
    by (destr_cmp; cbn; lia).
  replace ((find (b text ++ LF :: rest) CR =? -1)
           || (-1 <? Z.of_nat (length (b text)))
              && (Z.of_nat (length (b text)) <? find (b text ++ LF :: rest) CR))
    with true by (destr_cmp; cbn; lia).
  now rewrite slice_to_length, slice_from_length, Hb, Hd, Hs.
Qed.

(** A plain text followed by CR is handed over, whatever came before. *)
Lemma iteration_text_CR text rest last :
  plain text = true ->
  iteration {| _data := b text ++ CR :: rest; _last_char := last |} =
  Some ({| _data := rest; _last_char := Some char_CR |}, [OnLine text]).
Proof.
  intros (Hb & Hs & Hd & HCR & HLF)%plain_inv.
  destruct (find_after_text (b text) rest CR LF HCR HLF eq_refl) as [E1 E2].
  unfold iteration. cbn [_data]. rewrite E1, !Z.gtb_ltb.
  replace ((Z.of_nat (length (b text)) =? -1)
           && (find (b text ++ CR :: rest) LF =? -1)) with false
    by (destr_cmp; cbn; lia).
  replace ((Z.of_nat (length (b text)) =? -1)
           || (-1 <? find (b text ++ CR :: rest) LF)
              && (find (b text ++ CR :: rest) LF <? Z.of_nat (length (b text))))
    with false by (destr_cmp; cbn; lia).
  replace ((find (b text ++ CR :: rest) LF =? -1)
           || (-1 <? Z.of_nat (length (b text)))
              && (Z.of_nat (length (b text)) <? find (b text ++ CR :: rest) LF))
    with true by (destr_cmp; cbn; lia).
  now rewrite slice_to_length, slice_from_length, Hb, Hd.
Qed.

(** A CR at the start of the buffer makes no callback unless the
    previous terminator was a CR too. *)
Lemma iteration_CR_at_head rest last :
  last_char_is {| _data := []; _last_char := last |} char_CR = false ->
  iteration {| _data := CR :: rest; _last_char := last |} =
  Some ({| _data := rest; _last_char := Some char_CR |}, []).
Proof.
  intros Hlast.
  unfold iteration; cbn [_data find].
  change (Byte.eqb CR CR) with true. change (Byte.eqb CR LF) with false.
  cbn iota. pose proof (find_range rest LF) as HLF.
  rewrite !Z.gtb_ltb.
  replace (last_char_is {| _data := CR :: rest; _last_char := last |} char_CR)
    with false by (symmetry; exact Hlast).
  destruct (Z.eqb_spec (find rest LF) (-1)) as [E|E]; cbn [andb orb].
  - reflexivity.
  - destr_cmp; try lia. reflexivity.
Qed.

Lemma loop_nil last :
  loop {| _data := []; _last_char := last |}
  = ({| _data := []; _last_char := last |}, []).
Proof. now rewrite loop_unfold. Qed.

Lemma loop_frames texts : forall last,
  Forall (fun t => plain t = true) texts ->
  exists last',
    loop {| _data := concat (map frame texts); _last_char := last |}
    = ({| _data := []; _last_char := last' |}, map OnLine texts).
Proof.
  induction texts as [|t ts IH]; intros last Hall.
  - exists last. apply loop_nil.
  - apply Forall_cons_iff in Hall as [Ht Hts].
    destruct (IH (Some char_LF) Hts) as [last' E]. exists last'.
    cbn [map concat]. unfold frame at 1. cbn [app].
    rewrite loop_unfold, iteration_LF_at_head, <- app_assoc. cbn [app].
    rewrite loop_unfold, (iteration_text_LF _ _ _ Ht), E. reflexivity.
Qed.

Lemma loop_terminated msgs : forall last,
  Forall (fun m => plain (fst m) = true) msgs ->
  exists last',
    loop {| _data := concat (map (fun m => b (fst m) ++ terminator_bytes (snd m)) msgs);
            _last_char := last |}
    = ({| _data := []; _last_char := last' |}, map (fun m => OnLine (fst m)) msgs).
Proof.
  induction msgs as [|[t term] ms IH]; intros last Hall.
  - exists last. apply loop_nil.
  - apply Forall_cons_iff in Hall as [Ht Hms]. cbn [fst snd] in Ht.
    cbn [map concat fst snd]. rewrite <- app_assoc.
    destruct term; cbn [terminator_bytes app].
    + destruct (IH (Some char_LF) Hms) as [last' E]. exists last'.
      now rewrite loop_unfold, (iteration_text_LF _ _ _ Ht), E.
    + destruct (IH (Some char_CR) Hms) as [last' E]. exists last'.
      now rewrite loop_unfold, (iteration_text_CR _ _ _ Ht), E.
    + destruct (IH (Some char_LF) Hms) as [last' E]. exists last'.
      rewrite loop_unfold, (iteration_text_CR _ _ _ Ht).
      now rewrite loop_unfold, iteration_LF_at_head, E.
    + destruct (IH (Some char_CR) Hms) as [last' E]. exists last'.
      rewrite loop_unfold, (iteration_text_LF _ _ _ Ht).
      now rewrite loop_unfold, iteration_CR_at_head, E.
Qed.

(** X3.  Frames built as [encode] builds them (LF, text, LF) are taken
    apart again: after [connection_lost] has dropped whatever was
    buffered, a sequence of frames around non-empty ASCII texts free of CR
    and LF makes exactly one callback per frame, with the text of the
    frame, in order, prints no warning and leaves the buffer empty. *)
Theorem frames_are_delivered st (texts : list string) :
  Forall (fun t => plain t = true) texts ->
  snd (data_received (connection_lost st) (concat (map frame texts)))
    = map OnLine texts
  /\ lines (snd (data_received (connection_lost st) (concat (map frame texts))))
    = texts
  /\ _data (fst (data_received (connection_lost st) (concat (map frame texts))))
    = [].
Proof.
  intros Hall. unfold data_received, connection_lost. cbn [_data _last_char app].
  destruct (loop_frames texts (_last_char st) Hall) as [last' ->].
  cbn [fst snd _data]. repeat split.
  unfold lines. induction texts as [|t ts IH]; [reflexivity|].
  cbn [map flat_map app]. f_equal. apply IH. now apply Forall_cons_iff in Hall.
Qed.

Lemma frames_are_delivered_witness :
  lines (snd (data_received (connection_lost (fst (data_received init (b "4f"))))
                (concat (map frame ["0x01a6"; "0x02"]))))
  = ["0x01a6"; "0x02"].
Proof.
  apply (frames_are_delivered (fst (data_received init (b "4f"))) ["0x01a6"; "0x02"]).
  repeat constructor.
Defined.

(** X4.  Each of the four line endings LF, CR, CR LF and LF CR ends
    exactly one line: a reader with an empty buffer fed non-empty ASCII
    texts free of CR and LF, each followed by any of the four endings,
    makes exactly one callback per text, in order, and nothing else. *)
Theorem terminated_lines_are_delivered st (msgs : list (string * Terminator)) :
  _data st = [] ->
  Forall (fun m => plain (fst m) = true) msgs ->
  snd (data_received st
         (concat (map (fun m => b (fst m) ++ terminator_bytes (snd m)) msgs)))
    = map (fun m => OnLine (fst m)) msgs
  /\ _data (fst (data_received st
         (concat (map (fun m => b (fst m) ++ terminator_bytes (snd m)) msgs))))
    = [].
Proof.
  intros Hd Hall. unfold data_received. rewrite Hd. cbn [app].
  destruct (loop_terminated msgs (_last_char st) Hall) as [last' ->].
  now split.
Qed.

Lemma terminated_lines_are_delivered_witness :
  snd (data_received init
         (concat (map (fun m => b (fst m) ++ terminator_bytes (snd m))
                      [("a", T_CRLF); ("b", T_LF); ("c", T_LFCR); ("d", T_CR)])))
    = [OnLine "a"; OnLine "b"; OnLine "c"; OnLine "d"]
  /\ _data (fst (data_received init
         (concat (map (fun m => b (fst m) ++ terminator_bytes (snd m))
                      [("a", T_CRLF); ("b", T_LF); ("c", T_LFCR); ("d", T_CR)]))))
    = [].
Proof.
  apply (terminated_lines_are_delivered init
           [("a", T_CRLF); ("b", T_LF); ("c", T_LFCR); ("d", T_CR)]);
    [reflexivity | repeat constructor].
Defined.

Lemma loop_LFs n : forall last,
  exists last',
    loop {| _data := repeat LF n; _last_char := last |}
    = ({| _data := []; _last_char := last' |}, []).
Proof.
  induction n as [|n IH]; intros last.
  - exists last. apply loop_nil.
  - destruct (IH (Some char_LF)) as [last' E]. exists last'.
    cbn [repeat]. now rewrite loop_unfold, iteration_LF_at_head, E.
Qed.

Lemma loop_CRs n :
  loop {| _data := repeat CR n; _last_char := Some char_CR |}
  = ({| _data := []; _last_char := Some char_CR |}, repeat (OnLine EmptyString) n).
Proof.
  induction n as [|n IH]; [apply loop_nil|].
  cbn [repeat]. now rewrite loop_unfold, iteration_CR_after_CR, IH.
Qed.

(** X5.  Blank lines are not treated alike by the two branches.  A run
    of LF bytes never makes a callback, whatever the reader had seen
    before; a run of [n] CR bytes directly after a CR makes [n] callbacks
    with the empty line.  (The buffer is empty before and after.) *)
Theorem blank_lines_LF_dropped_CR_delivered st n :
  _data st = [] ->
  snd (data_received st (repeat LF n)) = []
  /\ (_last_char st = Some char_CR ->
      snd (data_received st (repeat CR n)) = repeat (OnLine EmptyString) n)
  /\ (_last_char st <> Some char_CR ->
      snd (data_received st (repeat CR (S n))) = repeat (OnLine EmptyString) n).
Proof.
  intros Hd. unfold data_received. rewrite Hd. cbn [app]. repeat split.
  - now destruct (loop_LFs n (_last_char st)) as [last' ->].
  - intros ->. now rewrite loop_CRs.
  - intros Hlast. cbn [repeat].
    rewrite loop_unfold, iteration_CR_at_head, loop_CRs; [reflexivity|].
    unfold last_char_is. cbn [_last_char].
    destruct (_last_char st) as [c|]; [|reflexivity].
    destruct (Ascii.eqb_spec c char_CR); [subst; contradiction | reflexivity].
Qed.

Lemma blank_lines_LF_dropped_CR_delivered_witness :
  snd (data_received init (repeat LF 3)) = []
  /\ (_last_char init = Some char_CR ->
      snd (data_received init (repeat CR 3)) = repeat (OnLine EmptyString) 3)
  /\ (_last_char init <> Some char_CR ->
      snd (data_received init (repeat CR 4)) = repeat (OnLine EmptyString) 3).
Proof. apply (blank_lines_LF_dropped_CR_delivered init 3). reflexivity. Defined.

End FramingFacts.

(* ===================================================================== *)
(** ** sspt/bytebuffer.py: ByteIterator *)
(* ===================================================================== *)

Module Bytebuffer.

(** What a method of the iterator can raise: its own
    [UnderflowException], [struct.error] from [struct.pack], and the
    built-in exceptions. *)
Inductive BinExn :=
| UnderflowException
| struct_error
| Py (e : Exn).

Inductive BinRes (A : Type) :=
| Done (a : A)
| Fail (e : BinExn).
Arguments Done {A} a.
Arguments Fail {A} e.

(** [ByteIterator]: [_data] is a bytearray, a list of integers 0..255.
    For a read iterator it is the data not yet read, for a write iterator
    the data written so far. *)
Record ByteIterator := mkIterator { _data : list Z }.

(** A method of the iterator. *)
Definition B (A : Type) : Type := ByteIterator -> BinRes A * ByteIterator.

Definition retB {A} (a : A) : B A := fun it => (Done a, it).
Definition failB {A} (e : BinExn) : B A := fun it => (Fail e, it).
Definition bindB {A C} (m : B A) (k : A -> B C) : B C :=
  fun it => match m it with
            | (Done a, it') => k a it'
            | (Fail e, it') => (Fail e, it')
            end.
Definition assertB (c : bool) : B unit :=
  if c then retB tt else failB (Py AssertionError).

Declare Scope bin_scope.
Delimit Scope bin_scope with bin.
Notation "'let*' x ':=' m 'in' k" := (bindB m (fun x => k))
  (at level 10, x name, m at level 100, k at level 200) : bin_scope.
Notation "m '>>' k" := (bindB m (fun _ => k))
  (at level 90, right associativity) : bin_scope.

(** [len(self._data)] *)
Definition len (it : ByteIterator) : Z := Z.of_nat (length (_data it)).

(** [self._data[i]], for an index the caller has checked. *)
Definition at_ (it : ByteIterator) (i : nat) : Z := nth i (_data it) 0.

(** ** Reading *)

Definition skip (size : Z) : B unit :=
  fun it =>
    if len it <? size then (Fail UnderflowException, it)
    else (Done tt, {| _data := skipn (Z.to_nat size) (_data it) |}).

Definition read_byte : B Z :=
  fun it =>
    if len it =? 0 then (Fail UnderflowException, it)
    else (let byte := at_ it 0 in skip 1 >> retB byte)%bin it.

Definition read_uint8 : B Z := read_byte.

Definition read_uint16 : B Z :=
  fun it =>
    if len it <? 2 then (Fail UnderflowException, it)
    else (* Little endian *)
      (let i := at_ it 0 + at_ it 1 * 256 in skip 2 >> retB i)%bin it.

Definition read_int16 : B Z :=
  (let* x := read_uint16 in
   if x >? 32767 then retB (x - 65536) else retB x)%bin.

Definition read_uint32 : B Z :=
  fun it =>
    if len it <? 4 then (Fail UnderflowException, it)
    else (* Little endian *)
      (let i := at_ it 0 + Z.shiftl (at_ it 1) 8 + Z.shiftl (at_ it 2) 16
                + Z.shiftl (at_ it 3) 24 in
       skip 4 >> retB i)%bin it.

Definition read_int32 : B Z :=
  (let* x := read_uint32 in
   if x >=? 2 ^ 31 then retB (x - 2 ^ 32) else retB x)%bin.

(** The [while True:] loop of [read_varuint]; every pass reads one byte,
    so the loop runs at most once per byte of the data, plus the pass
    that underflows. *)
Fixpoint read_varuint_loop (passes : nat) (x bits : Z) : B Z :=
  (let* byte := read_uint8 in
   let x := x + Z.shiftl (Z.land byte 127) bits in
   if byte <? 128 then retB x     (* No flag to continue *)
   else match passes with
        | O => failB UnderflowException
        | S passes' => read_varuint_loop passes' x (bits + 7)
        end)%bin.

Definition read_varuint : B Z :=
  fun it => read_varuint_loop (length (_data it)) 0 0 it.

Definition read_regIx : B Z := read_uint8.
Definition read_symbol : B Z := read_varuint.
Definition read_id : B Z := read_uint8.

(** [read_size_and_buffer] *)
Definition read_size_and_buffer : B (list Z) :=
  fun it =>
    if len it <? 1 then (Fail UnderflowException, it)
    else (let* size := read_uint8 in
          fun it' =>
            if len it' <? size then (Fail UnderflowException, it')
            else (let buf := firstn (Z.to_nat size) (_data it') in
                  skip size >> retB buf) it')%bin it.

(** ** Writing (to back) *)

(** [self._data.append(x)]: a bytearray takes integers 0..255 only. *)
Definition append (x : Z) : B unit :=
  fun it =>
    if (0 <=? x) && (x <? 256)
    then (Done tt, {| _data := _data it ++ [x] |})
    else (Fail (Py ValueError), it).

(** [self.write(data)] for a [bytes] value. *)
Definition write (data : list Z) : B unit :=
  fun it => (Done tt, {| _data := _data it ++ data |}).

(** The [n] little-endian bytes of [x] modulo [256^n] (two's complement
    for a negative [x]). *)
Fixpoint le_bytes (n : nat) (x : Z) : list Z :=
  match n with
  | O => []
  | S n' => x mod 256 :: le_bytes n' (x / 256)
  end.

(** [struct.pack(fmt, x)] for the formats ['<h'], ['<I'] and ['<i']: the
    little-endian bytes, or [struct.error] when [x] is out of range. *)
Definition struct_pack (size : nat) (lo hi : Z) (x : Z) : BinRes (list Z) :=
  if (lo <=? x) && (x <=? hi) then Done (le_bytes size x)
  else Fail struct_error.
Definition pack_h : Z -> BinRes (list Z) := struct_pack 2 (-32768) 32767.
Definition pack_I : Z -> BinRes (list Z) := struct_pack 4 0 4294967295.
Definition pack_i : Z -> BinRes (list Z) := struct_pack 4 (-2147483648) 2147483647.

Definition write_packed (packed : BinRes (list Z)) : B unit :=
  match packed with
  | Done data => write data
  | Fail e => failB e
  end.

Definition write_uint8 (x : Z) : B unit :=
  (assertB ((x >=? 0) && (x <? 256)) >> append x)%bin.

Definition write_uint16 (x : Z) : B unit :=
  (assertB ((x >=? 0) && (x <? 2 ^ 16)) >>
   append (x mod 256) >>
   append (Z.shiftr x 8))%bin.

Definition write_int16 (x : Z) : B unit := write_packed (pack_h x).
Definition write_uint32 (x : Z) : B unit := write_packed (pack_I x).
Definition write_int32 (x : Z) : B unit := write_packed (pack_i x).

(** The [while x >= 0x80:] loop of [write_varuint] and the final byte. *)
Equations? write_varuint_loop (x : Z) : B unit by wf (Z.to_nat x) lt :=
  write_varuint_loop x with Z_ge_lt_dec x 128 := {
    | left _ =>
        (* Write the lowest 7 bits and flag for more data *)
        (append (Z.lor (Z.land x 127) 128) >>
         write_varuint_loop (Z.shiftr x 7))%bin;
    | right _ =>
        (* x is now 7 bits or smaller. Write the final byte *)
        append x }.
Proof.
  rewrite Z.shiftr_div_pow2 by lia. change (2 ^ 7) with 128.
  assert (x / 128 < x) by (apply Z.div_lt; lia).
  assert (0 <= x / 128) by (apply Z.div_pos; lia). lia.
Qed.

Definition write_varuint (x : Z) : B unit :=
  (assertB ((x >=? 0) && (x <? 2 ^ 32)) >> write_varuint_loop x)%bin.

Definition write_regIx (_regIx : Z) : B unit := write_uint8 _regIx.
Definition write_symbol (sym : Z) : B unit := write_varuint sym.

(** ** Stack write (to front) *)
Definition push_uint8 (x : Z) : B unit :=
  (assertB ((x >=? 0) && (x <? 256)) >>
   fun it => (Done tt, {| _data := x :: _data it |}))%bin.
Definition push_regIx (_regIx : Z) : B unit := push_uint8 _regIx.

(** [get_int_array] *)
Definition get_int_array (it : ByteIterator) : list Z := _data it.

End Bytebuffer.

Module BytebufferFacts.
Import Bytebuffer.

Ltac unfold_b :=
  unfold bindB, retB, failB, assertB, skip, append, write, len, at_ in *.

Lemma skip_app n (l rest : list Z) :
  Z.of_nat (length l) = n ->
  skip n {| _data := l ++ rest |} = (Done tt, {| _data := rest |}).
Proof.
  intros <-. unfold skip, len. cbn [_data]. rewrite length_app, Nat2Z.id.
  destruct (Z.ltb_spec (Z.of_nat (length l + length rest)) (Z.of_nat (length l)));
    [lia|].
  now rewrite skipn_app, skipn_all, Nat.sub_diag.
Qed.

Lemma read_uint8_cons x rest :
  read_uint8 {| _data := x :: rest |} = (Done x, {| _data := rest |}).
Proof.
  unfold read_uint8, read_byte, bindB, retB.
  change (len {| _data := x :: rest |} =? 0) with false. cbn iota.
  change (x :: rest) with ([x] ++ rest).
  now rewrite (skip_app 1 [x] rest eq_refl).
Qed.

Lemma read_uint16_le_bytes x rest :
  read_uint16 {| _data := le_bytes 2 x ++ rest |}
  = (Done (x mod 65536), {| _data := rest |}).
Proof.
  unfold read_uint16, bindB, retB.
  replace (len _ <? 2) with false
    by (unfold len; cbn [_data le_bytes app length]; destr_cmp; lia).
  rewrite (skip_app 2 (le_bytes 2 x) rest eq_refl). unfold at_. cbn [le_bytes app _data nth].
  do 2 f_equal. Z.to_euclidean_division_equations; lia.
Qed.

Lemma read_uint32_le_bytes x rest :
  read_uint32 {| _data := le_bytes 4 x ++ rest |}
  = (Done (x mod 4294967296), {| _data := rest |}).
Proof.
  unfold read_uint32, bindB, retB.
  replace (len _ <? 4) with false
    by (unfold len; cbn [_data le_bytes app length]; destr_cmp; lia).
  rewrite (skip_app 4 (le_bytes 4 x) rest eq_refl). unfold at_. cbn [le_bytes app _data nth].
  rewrite !Z.shiftl_mul_pow2 by lia.
  change (2 ^ 8) with 256. change (2 ^ 16) with 65536. change (2 ^ 24) with 16777216.
  do 2 f_equal. Z.to_euclidean_division_equations; lia.
Qed.

Lemma write_varuint_loop_unfold x :
  write_varuint_loop x =
  if x >=? 128
  then (append (Z.lor (Z.land x 127) 128) >> write_varuint_loop (Z.shiftr x 7))%bin
  else append x.
Proof.
  funelim (write_varuint_loop x).
  - replace (x >=? 128) with true by (symmetry; apply Z.geb_le; lia). reflexivity.
  - replace (x >=? 128) with false; [reflexivity|].
    symmetry. rewrite Z.geb_leb. apply Z.leb_gt. lia.
Qed.

(** The two bit tricks of the variable-length encoding, on one byte. *)
Lemma varuint_low_bits r :
  0 <= r < 128 ->
  Z.lor r 128 = r + 128 /\ Z.land (r + 128) 127 = r /\ Z.land r 127 = r.
Proof.
  intros Hr.
  assert (forallb (fun r => (Z.lor r 128 =? r + 128) && (Z.land (r + 128) 127 =? r)
                            && (Z.land r 127 =? r))
                  (List.map Z.of_nat (seq 0 128)) = true) as Hall
    by (vm_compute; reflexivity).
  rewrite forallb_forall in Hall.
  specialize (Hall r). rewrite !andb_true_iff, !Z.eqb_eq in Hall.
  assert (In r (List.map Z.of_nat (seq 0 128))) as Hin.
  { apply in_map_iff. exists (Z.to_nat r). split; [lia|]. apply in_seq. lia. }
  destruct (Hall Hin) as [[? ?] ?]. auto.
Qed.

(** The pass counter of [read_varuint_loop] never runs out: the loop
    stops by itself on the data. *)
Lemma read_varuint_loop_passes : forall data p x bits,
  (length data <= p)%nat ->
  read_varuint_loop p x bits {| _data := data |}
  = read_varuint_loop (length data) x bits {| _data := data |}.
Proof.
  induction data as [|byte rest IH]; intros p x bits Hp.
  - destruct p; reflexivity.
  - destruct p as [|p]; [cbn in Hp; lia|].
    cbn [length read_varuint_loop]. unfold bindB.
    rewrite read_uint8_cons.
    destruct (byte <? 128); [reflexivity|].
    apply IH. cbn in Hp. lia.
Qed.

Lemma varuint_round_trip_aux : forall n x,
  (Z.to_nat x < n)%nat -> 0 <= x ->
  exists bytes,
    (forall it, write_varuint_loop x it = (Done tt, {| _data := _data it ++ bytes |}))
    /\ (forall k, x < 128 ^ Z.of_nat k -> (1 <= k)%nat ->
          (1 <= length bytes <= k)%nat)
    /\ (forall rest p acc bits, 0 <= bits -> (length bytes <= p)%nat ->
          read_varuint_loop p acc bits {| _data := bytes ++ rest |}
          = (Done (acc + x * 2 ^ bits), {| _data := rest |})).
Proof.
  induction n as [|n IH]; intros x Hn Hx; [lia|].
  rewrite write_varuint_loop_unfold.
  destruct (Z.geb_spec x 128) as [Hge|Hlt].
  - assert (0 <= x / 128 < x) as Hdiv
        by (split; [apply Z.div_pos | apply Z.div_lt]; lia).
    pose proof (Z.mod_pos_bound x 128 ltac:(lia)) as Hmod.
    destruct (varuint_low_bits (x mod 128) Hmod) as (Hlor & Hland & _).
    rewrite Z.shiftr_div_pow2 by lia. change (2 ^ 7) with 128.
    change 127 with (Z.ones 7). rewrite Z.land_ones by lia.
    change (2 ^ 7) with 128. rewrite Hlor.
    destruct (IH (x / 128)) as (bytes & Hw & Hne & Hr); [lia|lia|].
    exists ((x mod 128 + 128) :: bytes). split; [|split].
    + intros it. unfold bindB, append.
      replace ((0 <=? x mod 128 + 128) && (x mod 128 + 128 <? 256)) with true
        by (symmetry; apply andb_true_iff; split; [apply Z.leb_le|apply Z.ltb_lt]; lia).
      rewrite Hw. cbn [_data]. now rewrite <- app_assoc.
    + intros k Hk Hk1. cbn [length].
      destruct k as [|[|k]]; [lia| cbn in Hk; lia |].
      assert (x / 128 < 128 ^ Z.of_nat (S k)) as Hk'.
      { apply Z.div_lt_upper_bound; [lia|].
        replace (Z.of_nat (S (S k))) with (1 + Z.of_nat (S k)) in Hk by lia.
        rewrite Z.pow_add_r in Hk by lia. exact Hk. }
      specialize (Hne (S k) Hk' ltac:(lia)). lia.
    + intros rest p acc bits Hbits Hp.
      destruct p as [|p]; [cbn in Hp; lia|].
      cbn [read_varuint_loop app]. unfold bindB at 1.
      rewrite read_uint8_cons.
      replace (x mod 128 + 128 <? 128) with false by (symmetry; apply Z.ltb_ge; lia).
      change 127 with (Z.ones 7) in Hland |- *. rewrite Hland.
      rewrite Hr by (cbn in Hp; lia).
      do 2 f_equal. rewrite Z.shiftl_mul_pow2, Z.pow_add_r by lia.
      change (2 ^ 7) with 128.
      rewrite (Z.div_mod x 128) at 3 by lia. ring.
  - exists [x]. split; [|split; [cbn [length]; lia|]].
    + intros it. unfold append.
      replace ((0 <=? x) && (x <? 256)) with true
        by (symmetry; apply andb_true_iff; split; [apply Z.leb_le|apply Z.ltb_lt]; lia).
      reflexivity.
    + intros rest p acc bits Hbits Hp.
      destruct (varuint_low_bits x ltac:(lia)) as (_ & _ & Hland).
      destruct p; cbn [read_varuint_loop app]; unfold bindB;
        rewrite read_uint8_cons, Hland;
        replace (x <? 128) with true by (symmetry; apply Z.ltb_lt; lia);
        unfold retB; now rewrite Z.shiftl_mul_pow2 by lia.
Qed.

(** X6.  The variable-length encoding of unsigned integers is read back:
    for [0 <= x < 2^32], [write_varuint] appends between one and five
    bytes to the iterator, and [read_varuint] on an iterator that starts
    with these bytes returns [x] and leaves exactly what followed them. *)
Theorem varuint_round_trip x it rest :
  0 <= x < 2 ^ 32 ->
  exists bytes,
    write_varuint x it = (Done tt, {| _data := _data it ++ bytes |})
    /\ (1 <= length bytes <= 5)%nat
    /\ read_varuint {| _data := bytes ++ rest |} = (Done x, {| _data := rest |}).
Proof.
  intros Hx.
  destruct (varuint_round_trip_aux (S (Z.to_nat x)) x) as (bytes & Hw & Hlen & Hr);
    [lia|lia|].
  exists bytes. split; [|split].
  - unfold write_varuint, bindB, assertB.
    replace ((x >=? 0) && (x <? 2 ^ 32)) with true
      by (symmetry; apply andb_true_iff; split; [apply Z.geb_le|apply Z.ltb_lt]; lia).
    apply Hw.
  - apply Hlen; [|lia]. change (128 ^ Z.of_nat 5) with 34359738368.
    change (2 ^ 32) with 4294967296 in Hx. lia.
  - unfold read_varuint. cbn [_data].
    rewrite Hr; [|lia|rewrite length_app; lia].
    do 2 f_equal. lia.
Qed.

Lemma varuint_round_trip_witness :
  exists bytes,
    write_varuint 1000 {| _data := [19] |} = (Done tt, {| _data := [19] ++ bytes |})
    /\ (1 <= length bytes <= 5)%nat
    /\ read_varuint {| _data := bytes ++ [7] |} = (Done 1000, {| _data := [7] |}).
Proof. apply (varuint_round_trip 1000 {| _data := [19] |} [7]). lia. Defined.

End BytebufferFacts.

(* ===================================================================== *)
(** ** sspt/pyObjects.py: fixpoint types and values *)
(* ===================================================================== *)

Module PyObjects.

(** The [is_two_complement] argument: a [bool], or an integer that the
    constructor accepts when it is 0 or 1. *)
Inductive PyFlag :=
| FlagBool (b : bool)
| FlagInt (z : Z).

(** [type(x) is bool or x == 0 or x == 1] *)
Definition flag_accepted (x : PyFlag) : bool :=
  match x with
  | FlagBool _ => true
  | FlagInt z => (z =? 0) || (z =? 1)
  end.

(** [bool(x)] *)
Definition bool_of_flag (x : PyFlag) : bool :=
  match x with
  | FlagBool b => b
  | FlagInt z => negb (z =? 0)
  end.

(** An instance of [FixpointTypeClass]; [regIx] is the field set by
    [SspPyObj.__init__]. *)
Record FixpointTypeClass := mkFixpointType {
  regIx : option Z;
  _is_two_complement : bool;
  _bits : Z;
  _decimal_count : Z;
  _raw_null_value : Z
}.

(** [FixpointTypeClass.__init__] *)
Definition FixpointTypeClass_init (is_two_complement : PyFlag)
    (bits decimal_count : Z) (regIx : option Z) : Res FixpointTypeClass :=
  if negb (flag_accepted is_two_complement) then Raise AssertionError
  else if negb ((bits =? 8) || (bits =? 16) || (bits =? 32)) then Raise AssertionError
  else if negb ((decimal_count >=? 0) && (decimal_count <? 32)) then Raise AssertionError
  else
    let two := bool_of_flag is_two_complement in
    Ok {| regIx := regIx;
          _is_two_complement := two;
          _bits := bits;
          _decimal_count := decimal_count;
          _raw_null_value :=
            if two
            then - (2 ^ (bits - 1))     (* Most negative value is used as null *)
            else 2 ^ bits - 1           (* Most positive value is used as null *)
       |}.

(** An instance of the class [Fixpoint] (a value of a fixpoint type). *)
Record FixpointValue := mkFixpoint {
  _type : FixpointTypeClass;
  _raw_value : Z
}.

(** [FixpointTypeClass.from_pyValue], for [value] being [None] or a
    Python [int] (for an int, [int(value * 10 ** d)] is exact). *)
Definition from_pyValue (self : FixpointTypeClass) (value : option Z)
  : Res FixpointValue :=
  match value with
  | None => Ok {| _type := self; _raw_value := _raw_null_value self |}
  | Some v =>
      if negb (_is_two_complement self) && (v <? 0)
      then Raise (TypeException "Unsigned fixpoint type can't encode negative value")
      else Ok {| _type := self;
                 _raw_value := v * 10 ^ _decimal_count self |}
  end.

(** [Fixpoint.is_null] *)
Definition is_null (self : FixpointValue) : bool :=
  _raw_value self =? _raw_null_value (_type self).


(** *** Binary coding of fixpoint types and values *)
Import Bytebuffer.

(** [constants.SSP_FORMAT_FIXPOINT] *)
Definition SSP_FORMAT_FIXPOINT : Z := 19.

(** [FixpointTypeClass.from_impBin] *)
Definition from_impBin (self : FixpointTypeClass) : B FixpointValue :=
  let Fixpoint_ (raw_value : Z) : B FixpointValue :=
    retB {| _type := self; _raw_value := raw_value |} in
  (if _is_two_complement self then
     if _bits self =? 16 then let* r := read_int16 in Fixpoint_ r
     else if _bits self =? 32 then let* r := read_int32 in Fixpoint_ r
     else failB (Py (Exception "Not implemented"))
   else if _bits self =? 8 then let* r := read_uint8 in Fixpoint_ r
   else if _bits self =? 16 then let* r := read_uint16 in Fixpoint_ r
   else if _bits self =? 32 then let* r := read_uint32 in Fixpoint_ r
   else failB (Py (Exception "Not implemented")))%bin.

(** [FixpointTypeClass._value_to_impBin] *)
Definition _value_to_impBin (self : FixpointTypeClass) (raw_value : Z) : B unit :=
  if _is_two_complement self then
    if _bits self =? 16 then write_int16 raw_value
    else if _bits self =? 32 then write_int32 raw_value
    else failB (Py (Exception "Not implemented"))
  else if _bits self =? 8 then write_uint8 raw_value
  else if _bits self =? 16 then write_uint16 raw_value
  else if _bits self =? 32 then write_uint32 raw_value
  else failB (Py (Exception "Not implemented")).

(** [Fixpoint.to_impBin] *)
Definition to_impBin (self : FixpointValue) : B unit :=
  _value_to_impBin (_type self) (_raw_value self).

(** [FixpointTypeClass.to_schemaBin] *)
Definition to_schemaBin (self : FixpointTypeClass) : B unit :=
  (write_regIx SSP_FORMAT_FIXPOINT >>
   write_uint8 (if _is_two_complement self then 1 else 0) >>
   write_uint8 (_bits self) >>
   write_uint8 (_decimal_count self))%bin.

(** [_FixpointFormatClass.from_schemaBin] *)
Definition from_schemaBin : B FixpointTypeClass :=
  (let* ix := read_regIx in
   if negb (ix =? SSP_FORMAT_FIXPOINT) then failB (Py (Exception EmptyString))
   else
     let* is_two_complement := read_uint8 in
     let* bits := read_uint8 in
     let* decimal_count := read_uint8 in
     match FixpointTypeClass_init (FlagInt is_two_complement) bits decimal_count None with
     | Ok t => retB t
     | Raise e => failB (Py e)
     end)%bin.

End PyObjects.

Module PyObjectsFacts.
Import PyObjects.

(** The sentinel the claim names, by signedness and width. *)
Definition sentinel (two_complement : bool) (bits : Z) : Z :=
  if two_complement then - (2 ^ (bits - 1)) else 2 ^ bits - 1.

(** C8.  For every fixpoint type of 8, 16 or 32 bits (the constructor
    accepts exactly these widths, given a proper flag and a decimal count
    in 0..31), the raw null value is -(2^(bits-1)) for a signed type and
    2^bits - 1 for an unsigned one; [from_pyValue(None)] is the value with
    exactly that raw value; and [is_null] holds of a value of the type
    exactly when its raw value is that sentinel. *)
Theorem fixpoint_null_sentinel
    (flag : PyFlag) (bits decimal_count : Z) (ix : option Z) :
  flag_accepted flag = true ->
  bits = 8 \/ bits = 16 \/ bits = 32 ->
  0 <= decimal_count < 32 ->
  exists t,
    FixpointTypeClass_init flag bits decimal_count ix = Ok t
    /\ _raw_null_value t = sentinel (bool_of_flag flag) bits
    /\ _is_two_complement t = bool_of_flag flag /\ _bits t = bits
    /\ from_pyValue t None
       = Ok {| _type := t; _raw_value := sentinel (bool_of_flag flag) bits |}
    /\ (forall v, _type v = t ->
         (is_null v = true <-> _raw_value v = sentinel (bool_of_flag flag) bits)).
Proof.
  intros Hflag Hbits Hdc.
  unfold FixpointTypeClass_init. rewrite Hflag. cbn [negb].
  replace ((bits =? 8) || (bits =? 16) || (bits =? 32)) with true
    by (destruct Hbits as [->|[->| ->]]; reflexivity).
  replace ((decimal_count >=? 0) && (decimal_count <? 32)) with true
    by (symmetry; apply andb_true_iff; split; lia).
  cbn [negb]. eexists. split; [reflexivity|].
  cbn [_raw_null_value _is_two_complement _bits from_pyValue].
  do 4 (split; [reflexivity|]).
  intros v Hv. unfold is_null. rewrite Hv. cbn [_raw_null_value].
  apply Z.eqb_eq.
Qed.

Lemma fixpoint_null_sentinel_witness :
  exists t,
    FixpointTypeClass_init (FlagBool true) 16 2 None = Ok t
    /\ _raw_null_value t = -32768
    /\ _is_two_complement t = true /\ _bits t = 16
    /\ from_pyValue t None = Ok {| _type := t; _raw_value := -32768 |}
    /\ (forall v, _type v = t -> (is_null v = true <-> _raw_value v = -32768)).
Proof.
  apply (fixpoint_null_sentinel (FlagBool true) 16 2 None);
    [reflexivity | right; left; reflexivity | lia].
Defined.

(** The six sentinels, computed by the constructor. *)
Lemma fixpoint_sentinel_values :
  (_raw_null_value <$> [FixpointTypeClass_init (FlagInt 1) 8 0 None;
                        FixpointTypeClass_init (FlagInt 1) 16 0 None;
                        FixpointTypeClass_init (FlagInt 1) 32 0 None;
                        FixpointTypeClass_init (FlagInt 0) 8 0 None;
                        FixpointTypeClass_init (FlagInt 0) 16 0 None;
                        FixpointTypeClass_init (FlagInt 0) 32 0 None]
     ≫= (fun r => match r with Ok t => [t] | Raise _ => [] end))
  = [-128; -32768; -2147483648; 255; 65535; 4294967295].
Proof. reflexivity. Qed.

(** *** Binary coding *)
Import Bytebuffer BytebufferFacts.

(** The raw values a fixpoint type has room for. *)
Definition in_range (t : FixpointTypeClass) (raw : Z) : bool :=
  if _is_two_complement t
  then (- 2 ^ (_bits t - 1) <=? raw) && (raw <? 2 ^ (_bits t - 1))
  else (0 <=? raw) && (raw <? 2 ^ _bits t).

(** The one combination that the constructor accepts and that the
    binary coding does not implement: signed, 8 bits. *)
Definition is_signed8 (t : FixpointTypeClass) : bool :=
  _is_two_complement t && (_bits t =? 8).

Lemma init_inv flag bits dc ix t :
  FixpointTypeClass_init flag bits dc ix = Ok t ->
  t = {| regIx := ix; _is_two_complement := bool_of_flag flag; _bits := bits;
         _decimal_count := dc;
         _raw_null_value := if bool_of_flag flag then - 2 ^ (bits - 1)
                            else 2 ^ bits - 1 |}
  /\ (bits = 8 \/ bits = 16 \/ bits = 32) /\ 0 <= dc < 32.
Proof.
  unfold FixpointTypeClass_init.
  destruct (flag_accepted flag); cbn [negb]; [|discriminate].
  destruct ((bits =? 8) || (bits =? 16) || (bits =? 32)) eqn:Eb; cbn [negb]; [|discriminate].
  destruct ((dc >=? 0) && (dc <? 32)) eqn:Ed; cbn [negb]; [|discriminate].
  intros [= <-]. split; [reflexivity|]. split.
  - revert Eb. destr_cmp; cbn; intros; try discriminate; lia.
  - apply andb_true_iff in Ed as [?%Z.geb_le ?%Z.ltb_lt]. lia.
Qed.

Lemma write_packed_ok size lo hi x it :
  lo <= x <= hi ->
  write_packed (struct_pack size lo hi x) it
  = (Done tt, {| _data := _data it ++ le_bytes size x |}).
Proof.
  intros H. unfold struct_pack.
  replace ((lo <=? x) && (x <=? hi)) with true
    by (symmetry; apply andb_true_iff; split; apply Z.leb_le; lia).
  reflexivity.
Qed.

Lemma write_packed_fail size lo hi x it :
  ~ lo <= x <= hi ->
  write_packed (struct_pack size lo hi x) it = (Fail struct_error, it).
Proof.
  intros H. unfold struct_pack.
  replace ((lo <=? x) && (x <=? hi)) with false; [reflexivity|].
  symmetry. apply andb_false_iff. rewrite !Z.leb_gt. lia.
Qed.

Lemma impBin_round_trip_aux flag bits dc ix t raw it rest :
  FixpointTypeClass_init flag bits dc ix = Ok t ->
  is_signed8 t = false ->
  in_range t raw = true ->
  exists bytes,
    to_impBin {| _type := t; _raw_value := raw |} it
      = (Done tt, {| _data := _data it ++ bytes |})
    /\ Z.of_nat (length bytes) * 8 = bits
    /\ from_impBin t {| _data := bytes ++ rest |}
      = (Done {| _type := t; _raw_value := raw |}, {| _data := rest |}).
Proof.
  intros (-> & Hbits & _)%init_inv.
  unfold is_signed8, in_range, to_impBin, _value_to_impBin, from_impBin.
  cbn [_type _raw_value _is_two_complement _bits].
  destruct (bool_of_flag flag); destruct Hbits as [->|[->| ->]];
    cbn [andb Z.eqb Pos.eqb]; try discriminate; intros _;
    change (2 ^ (16 - 1)) with 32768; change (2 ^ (32 - 1)) with 2147483648;
    change (2 ^ 8) with 256; change (2 ^ 16) with 65536;
    change (2 ^ 32) with 4294967296;
    rewrite andb_true_iff, ?Z.leb_le, ?Z.ltb_lt; intros Hr.
  - exists (le_bytes 2 raw). unfold write_int16, pack_h.
    rewrite write_packed_ok by lia. repeat split.
    unfold read_int16, bindB. rewrite read_uint16_le_bytes.
    destruct (Z.gtb_spec (raw mod 65536) 32767); unfold retB.
    + now replace (raw mod 65536 - 65536) with raw
        by (Z.to_euclidean_division_equations; lia).
    + now replace (raw mod 65536) with raw
        by (Z.to_euclidean_division_equations; lia).
  - exists (le_bytes 4 raw). unfold write_int32, pack_i.
    rewrite write_packed_ok by lia. repeat split.
    unfold read_int32, bindB. rewrite read_uint32_le_bytes.
    change (2 ^ 31) with 2147483648. change (2 ^ 32) with 4294967296.
    destruct (Z.geb_spec (raw mod 4294967296) 2147483648); unfold retB.
    + now replace (raw mod 4294967296 - 4294967296) with raw
        by (Z.to_euclidean_division_equations; lia).
    + now replace (raw mod 4294967296) with raw
        by (Z.to_euclidean_division_equations; lia).
  - exists [raw]. unfold write_uint8, bindB, assertB, append.
    replace (raw >=? 0) with true by (symmetry; apply Z.geb_le; lia).
    replace (raw <? 256) with true by (symmetry; apply Z.ltb_lt; lia).
    replace (0 <=? raw) with true by (symmetry; apply Z.leb_le; lia).
    cbn [andb]. repeat split.
    cbn [app]. now rewrite read_uint8_cons.
  - exists [raw mod 256; raw / 256]. unfold write_uint16, bindB, assertB, append.
    change (2 ^ 16) with 65536.
    replace (raw >=? 0) with true by (symmetry; apply Z.geb_le; lia).
    replace (raw <? 65536) with true by (symmetry; apply Z.ltb_lt; lia).
    cbn [andb retB].
    pose proof (Z.mod_pos_bound raw 256 ltac:(lia)).
    rewrite Z.shiftr_div_pow2 by lia. change (2 ^ 8) with 256.
    assert (0 <= raw / 256 < 256) by (Z.to_euclidean_division_equations; lia).
    replace ((0 <=? raw mod 256) && (raw mod 256 <? 256)) with true
      by (symmetry; apply andb_true_iff; split; [apply Z.leb_le|apply Z.ltb_lt]; lia).
    cbn [_data].
    replace ((0 <=? raw / 256) && (raw / 256 <? 256)) with true
      by (symmetry; apply andb_true_iff; split; [apply Z.leb_le|apply Z.ltb_lt]; lia).
    cbn [_data]. rewrite <- app_assoc. cbn [app]. repeat split.
    replace (raw mod 256 :: raw / 256 :: rest) with (le_bytes 2 raw ++ rest)
      by (cbn [le_bytes app]; now rewrite (Z.mod_small (raw / 256) 256) by lia).
    rewrite read_uint16_le_bytes. unfold retB.
    now rewrite Z.mod_small by lia.
  - exists (le_bytes 4 raw). unfold write_uint32, pack_I.
    rewrite write_packed_ok by lia. repeat split.
    unfold bindB. rewrite read_uint32_le_bytes. unfold retB.
    now rewrite Z.mod_small by lia.
Qed.

(** X7.  Binary round trip of a fixpoint value.  For a type made by the
    constructor, other than signed 8-bit, and a raw value the type has
    room for, [to_impBin] appends exactly bits/8 bytes to the iterator,
    and [from_impBin] of the type on an iterator that starts with these
    bytes returns the same value and leaves exactly what followed. *)
Theorem fixpoint_impBin_round_trip flag bits dc ix t raw it rest :
  FixpointTypeClass_init flag bits dc ix = Ok t ->
  is_signed8 t = false ->
  in_range t raw = true ->
  exists bytes,
    to_impBin {| _type := t; _raw_value := raw |} it
      = (Done tt, {| _data := _data it ++ bytes |})
    /\ Z.of_nat (length bytes) * 8 = bits
    /\ from_impBin t {| _data := bytes ++ rest |}
      = (Done {| _type := t; _raw_value := raw |}, {| _data := rest |}).
Proof. apply impBin_round_trip_aux. Qed.

Lemma fixpoint_impBin_round_trip_witness :
  exists t bytes,
    FixpointTypeClass_init (FlagBool true) 16 2 None = Ok t
    /\ to_impBin {| _type := t; _raw_value := -1234 |} {| _data := [7] |}
       = (Done tt, {| _data := [7] ++ bytes |})
    /\ Z.of_nat (length bytes) * 8 = 16
    /\ from_impBin t {| _data := bytes ++ [9] |}
       = (Done {| _type := t; _raw_value := -1234 |}, {| _data := [9] |}).
Proof.
  eexists.
  destruct (fixpoint_impBin_round_trip (FlagBool true) 16 2 None _ (-1234)
              {| _data := [7] |} [9] eq_refl eq_refl eq_refl) as (bytes & H).
  exists bytes. split; [reflexivity | exact H].
Defined.

(** X8.  What the binary coding refuses.  For a type made by the
    constructor, [to_impBin] raises and leaves the iterator as it was
    when the type is signed 8-bit (although the constructor accepts it)
    or when the raw value is outside the range of the type; and for a
    signed 8-bit type [from_impBin] raises as well, reading nothing. *)
Theorem fixpoint_impBin_rejects flag bits dc ix t raw it :
  FixpointTypeClass_init flag bits dc ix = Ok t ->
  is_signed8 t = true \/ in_range t raw = false ->
  (exists e, to_impBin {| _type := t; _raw_value := raw |} it = (Fail e, it))
  /\ (is_signed8 t = true ->
      to_impBin {| _type := t; _raw_value := raw |} it
        = (Fail (Py (Exception "Not implemented")), it)
      /\ from_impBin t it = (Fail (Py (Exception "Not implemented")), it)).
Proof.
  intros (-> & Hbits & _)%init_inv.
  unfold is_signed8, in_range, to_impBin, _value_to_impBin, from_impBin.
  cbn [_type _raw_value _is_two_complement _bits].
  destruct (bool_of_flag flag); destruct Hbits as [->|[->| ->]];
    cbn [andb Z.eqb Pos.eqb];
    change (2 ^ (16 - 1)) with 32768; change (2 ^ (32 - 1)) with 2147483648;
    change (2 ^ 8) with 256; change (2 ^ 16) with 65536;
    change (2 ^ 32) with 4294967296;
    (intros [Hs|Hr]; [try discriminate|]);
    (split; [|try discriminate; now intros _]);
    try (eexists; reflexivity);
    apply andb_false_iff in Hr; rewrite ?Z.leb_gt, ?Z.ltb_ge in Hr.
  - exists struct_error. apply write_packed_fail. lia.
  - exists struct_error. apply write_packed_fail. lia.
  - exists (Py AssertionError). unfold write_uint8, bindB, assertB.
    replace ((raw >=? 0) && (raw <? 256)) with false; [reflexivity|].
    symmetry. apply andb_false_iff. rewrite Z.geb_leb, Z.leb_gt, Z.ltb_ge. lia.
  - exists (Py AssertionError). unfold write_uint16, bindB, assertB.
    change (2 ^ 16) with 65536.
    replace ((raw >=? 0) && (raw <? 65536)) with false; [reflexivity|].
    symmetry. apply andb_false_iff. rewrite Z.geb_leb, Z.leb_gt, Z.ltb_ge. lia.
  - exists struct_error. apply write_packed_fail. lia.
Qed.

Lemma fixpoint_impBin_rejects_witness :
  exists t,
    FixpointTypeClass_init (FlagInt 1) 8 0 None = Ok t
    /\ to_impBin {| _type := t; _raw_value := 5 |} {| _data := [] |}
       = (Fail (Py (Exception "Not implemented")), {| _data := [] |})
    /\ from_impBin t {| _data := [] |}
       = (Fail (Py (Exception "Not implemented")), {| _data := [] |}).
Proof.
  eexists. split; [reflexivity|].
  apply (fixpoint_impBin_rejects (FlagInt 1) 8 0 None _ 5 {| _data := [] |} eq_refl);
    [left|]; reflexivity.
Defined.

(** X9.  The null value survives the binary coding: for a type made by
    the constructor, other than signed 8-bit, the value that
    [from_pyValue(None)] builds is written by [to_impBin], and what
    [from_impBin] reads back from these bytes satisfies [is_null]. *)
Theorem fixpoint_null_impBin_round_trip flag bits dc ix t it rest :
  FixpointTypeClass_init flag bits dc ix = Ok t ->
  is_signed8 t = false ->
  exists v bytes v',
    from_pyValue t None = Ok v
    /\ to_impBin v it = (Done tt, {| _data := _data it ++ bytes |})
    /\ from_impBin t {| _data := bytes ++ rest |} = (Done v', {| _data := rest |})
    /\ is_null v' = true.
Proof.
  intros Hinit Hs.
  assert (in_range t (_raw_null_value t) = true) as Hr.
  { destruct (init_inv _ _ _ _ _ Hinit) as (-> & Hbits & _).
    unfold in_range. cbn [_is_two_complement _bits _raw_null_value].
    destruct (bool_of_flag flag); destruct Hbits as [->|[->| ->]]; reflexivity. }
  destruct (impBin_round_trip_aux _ _ _ _ _ _ it rest Hinit Hs Hr)
    as (bytes & Hw & _ & Hrd).
  exists {| _type := t; _raw_value := _raw_null_value t |}, bytes,
         {| _type := t; _raw_value := _raw_null_value t |}.
  repeat split; try assumption.
  unfold is_null. cbn [_type _raw_value]. apply Z.eqb_refl.
Qed.

Lemma fixpoint_null_impBin_round_trip_witness :
  exists t v bytes v',
    FixpointTypeClass_init (FlagInt 0) 32 3 None = Ok t
    /\ from_pyValue t None = Ok v
    /\ to_impBin v {| _data := [] |} = (Done tt, {| _data := [] ++ bytes |})
    /\ from_impBin t {| _data := bytes ++ [] |} = (Done v', {| _data := [] |})
    /\ is_null v' = true.
Proof.
  eexists.
  destruct (fixpoint_null_impBin_round_trip (FlagInt 0) 32 3 None _
              {| _data := [] |} [] eq_refl eq_refl) as (v & bytes & v' & H).
  exists v, bytes, v'. split; [reflexivity | exact H].
Defined.

(** X10.  Schema round trip of a fixpoint type: for a type made by the
    constructor, [to_schemaBin] appends the four bytes
    [SSP_FORMAT_FIXPOINT], sign flag, bits, decimal count, and
    [from_schemaBin] on an iterator that starts with them builds a type
    with the same sign, bits, decimal count and null value (and no
    [regIx]), leaving exactly what followed. *)
Theorem fixpoint_schemaBin_round_trip flag bits dc ix t it rest :
  FixpointTypeClass_init flag bits dc ix = Ok t ->
  exists bytes,
    to_schemaBin t it = (Done tt, {| _data := _data it ++ bytes |})
    /\ length bytes = 4%nat
    /\ from_schemaBin {| _data := bytes ++ rest |}
       = (Done {| regIx := None;
                  _is_two_complement := _is_two_complement t;
                  _bits := _bits t;
                  _decimal_count := _decimal_count t;
                  _raw_null_value := _raw_null_value t |},
          {| _data := rest |}).
Proof.
  intros (-> & Hbits & Hdc)%init_inv.
  cbn [_is_two_complement _bits _decimal_count _raw_null_value].
  exists [SSP_FORMAT_FIXPOINT; if bool_of_flag flag then 1 else 0; bits; dc].
  split; [|split; [reflexivity|]].
  - unfold to_schemaBin, write_regIx, write_uint8, bindB, assertB, append.
    cbn [_is_two_complement _bits _decimal_count].
    change ((SSP_FORMAT_FIXPOINT >=? 0) && (SSP_FORMAT_FIXPOINT <? 256)) with true.
    change ((0 <=? SSP_FORMAT_FIXPOINT) && (SSP_FORMAT_FIXPOINT <? 256)) with true.
    cbn iota. unfold retB. cbn [_data].
    replace ((bits >=? 0) && (bits <? 256)) with true
      by (destruct Hbits as [->|[->| ->]]; reflexivity).
    replace ((0 <=? bits) && (bits <? 256)) with true
      by (destruct Hbits as [->|[->| ->]]; reflexivity).
    replace ((dc >=? 0) && (dc <? 256)) with true
      by (symmetry; apply andb_true_iff; split; [apply Z.geb_le|apply Z.ltb_lt]; lia).
    replace ((0 <=? dc) && (dc <? 256)) with true
      by (symmetry; apply andb_true_iff; split; [apply Z.leb_le|apply Z.ltb_lt]; lia).
    destruct (bool_of_flag flag); cbn; now rewrite <- !app_assoc.
  - unfold from_schemaBin, read_regIx, bindB. cbn [app].
    rewrite !read_uint8_cons. cbn [negb Z.eqb Pos.eqb SSP_FORMAT_FIXPOINT].
    change (negb (SSP_FORMAT_FIXPOINT =? SSP_FORMAT_FIXPOINT)) with false. cbn iota.
    rewrite !read_uint8_cons.
    unfold FixpointTypeClass_init.
    replace (flag_accepted (FlagInt (if bool_of_flag flag then 1 else 0))) with true
      by (now destruct (bool_of_flag flag)).
    replace ((bits =? 8) || (bits =? 16) || (bits =? 32)) with true
      by (destruct Hbits as [->|[->| ->]]; reflexivity).
    replace ((dc >=? 0) && (dc <? 32)) with true
      by (symmetry; apply andb_true_iff; split; [apply Z.geb_le|apply Z.ltb_lt]; lia).
    cbn [negb]. unfold retB.
    now destruct (bool_of_flag flag).
Qed.

Lemma fixpoint_schemaBin_round_trip_witness :
  exists t bytes,
    FixpointTypeClass_init (FlagBool true) 16 2 (Some 40) = Ok t
    /\ to_schemaBin t {| _data := [] |} = (Done tt, {| _data := [] ++ bytes |})
    /\ length bytes = 4%nat
    /\ from_schemaBin {| _data := bytes ++ [1; 2] |}
       = (Done {| regIx := None; _is_two_complement := true; _bits := 16;
                  _decimal_count := 2; _raw_null_value := -32768 |},
          {| _data := [1; 2] |}).
Proof.
  eexists.
  destruct (fixpoint_schemaBin_round_trip (FlagBool true) 16 2 (Some 40) _
              {| _data := [] |} [1; 2] eq_refl) as (bytes & H).
  exists bytes. split; [reflexivity | exact H].
Defined.

End PyObjectsFacts.

(* ===================================================================== *)
(** ** sspt/ontology.py: RegistryClass *)
(* ===================================================================== *)

Module Ontology.

(** The identity of a Python object.  No class of pyObjects.py defines
    [__eq__], so [a == b] on two [SspPyObj] is [a is b]: a comparison of
    references. *)
Definition ObjRef := nat.

(** What [RegistryClass.add] prints. *)
Inductive Notice :=
| LabelAlreadyRegistered (label : string) (oldObj : ObjRef).

Definition conflict_text : string :=
  "Can't add to registry: the index is already occupied".

Section Registry.
(** The fields a subclass of [SspPyObj] adds: the structure of the
    definition (its class and parameters). *)
Variable D : Type.

(** The fields of [SspPyObj] that the registry reads and writes, and the
    structure of the object. *)
Record SspPyObj := mkObj {
  regIx : option Z;
  _label : option string;
  structure : D
}.

Record RegistryClass := mkRegistry {
  _pyObjs : gmap Z ObjRef;        (* Map from index to pyObj *)
  _labels : gmap string Z         (* Mapping label -> index *)
}.

(** The registry together with the objects it shares with its callers. *)
Record World := mkWorld {
  heap : gmap ObjRef SspPyObj;
  registry : RegistryClass;
  stdout : list Notice
}.

Definition set_pyObj (index : Z) (obj : ObjRef) : M World unit :=
  modify (fun w =>
    {| heap := heap w;
       registry := {| _pyObjs := <[index := obj]> (_pyObjs (registry w));
                      _labels := _labels (registry w) |};
       stdout := stdout w |}).

Definition set_label (label : string) (index : Z) : M World unit :=
  modify (fun w =>
    {| heap := heap w;
       registry := {| _pyObjs := _pyObjs (registry w);
                      _labels := <[label := index]> (_labels (registry w)) |};
       stdout := stdout w |}).

Definition update_obj (obj : ObjRef) (f : SspPyObj -> SspPyObj) : M World unit :=
  modify (fun w =>
    {| heap := alter f obj (heap w);
       registry := registry w;
       stdout := stdout w |}).

Definition print (n : Notice) : M World unit :=
  modify (fun w =>
    {| heap := heap w; registry := registry w; stdout := stdout w ++ [n] |}).

Definition label_agrees (label : option string) (l : string) : bool :=
  match label with
  | None => true
  | Some l' => String.eqb l' l
  end.

Definition is_alias (o : SspPyObj) (index : Z) : bool :=
  match regIx o with
  | Some r => negb (r =? index)
  | None => false
  end.

(** [RegistryClass.add(index, obj, label=None)].  A reference that is
    not in the heap cannot occur in Python; the model answers it with an
    exception so that the function is total. *)
Definition add (index : Z) (obj : ObjRef) (label : option string)
  : M World unit :=
  (let* w := get in
   match heap w !! obj with
   | None => raise (Exception "no such object")
   | Some o =>
       match _pyObjs (registry w) !! index with
       | Some existing =>
           (* if not self._pyObjs[index] == obj: raise obj.source.error(..) *)
           if decide (existing = obj) then ret tt
           else raise (ParseError conflict_text)
       | None => ret tt
       end >>
       set_pyObj index obj >>
       if is_alias o index then
         (* Subsequent additions mark aliases from other entries *)
         assert (bool_decide (label = None))
       else
         let* label :=
           match _label o with
           | Some l => assert (label_agrees label l) >> ret (Some l)
           | None => ret label
           end in
         match label with
         | Some l =>
             let* w' := get in
             match _labels (registry w') !! l with
             | Some ix =>
                 match _pyObjs (registry w') !! ix with
                 | Some oldObj => print (LabelAlreadyRegistered l oldObj)
                 | None => raise KeyError
                 end >>
                 assert (ix =? index)
             | None => set_label l index
             end >>
             update_obj obj (fun o => {| regIx := regIx o; _label := Some l;
                                         structure := structure o |})
         | None => ret tt
         end >>
         update_obj obj (fun o => {| regIx := Some index; _label := _label o;
                                     structure := structure o |})
   end)%py.

End Registry.

Arguments regIx {D} _.
Arguments _label {D} _.
Arguments structure {D} _.
Arguments heap {D} _.
Arguments registry {D} _.
Arguments stdout {D} _.
Arguments mkObj {D} _ _ _.
Arguments mkWorld {D} _ _ _.
Arguments add {D} index obj label _.


(** *** Lookups *)

(** [RegistryClass.has_key] (and [__contains__]) *)
Definition has_key (r : RegistryClass) (index : Z) : bool :=
  match _pyObjs r !! index with Some _ => true | None => false end.

(** [RegistryClass.get_by_regIx] (and [RegistryClass.get]):
    [self._pyObjs.get(index, None)] *)
Definition get_by_regIx (r : RegistryClass) (index : Z) : option ObjRef :=
  _pyObjs r !! index.

(** [RegistryClass.get_by_label] *)
Definition get_by_label (r : RegistryClass) (label : string)
  : Res (option ObjRef) :=
  match _labels r !! label with
  | None => Ok None
  | Some index =>
      match _pyObjs r !! index with
      | Some obj => Ok (Some obj)
      | None => Raise KeyError
      end
  end.

End Ontology.

Module OntologyFacts.
Import Ontology.

(** The three parameters of a [FixpointTypeClass] definition, standing for
    the structure of a registry entry in the examples. *)
Definition FixpointParams : Type := bool * Z * Z.

(** Index 5 holds object 1, a [Fixpoint(1,16,2)] type; object 2 is a second
    [Fixpoint(1,16,2)] built independently. *)
Definition twin_world : World FixpointParams :=
  {| heap := <[1%nat := mkObj (Some 5) None (true, 16, 2)]>
             (<[2%nat := mkObj None None (true, 16, 2)]> ∅);
     registry := {| _pyObjs := <[5 := 1%nat]> ∅; _labels := ∅ |};
     stdout := [] |}.

Section AddFacts.
Context {D : Type}.
Implicit Types (w : World D) (o : SspPyObj D).

Ltac run :=
  unfold add, bind, get, assert, set_pyObj, set_label,
    update_obj, print, modify, ret, raise in *; cbn [heap registry stdout _pyObjs _labels fst snd] in *.

Lemma add_conflict_iff w index obj label o existing :
  heap w !! obj = Some o ->
  _pyObjs (registry w) !! index = Some existing ->
  fst (add index obj label w) = Raise (ParseError conflict_text)
  <-> existing <> obj.
Proof.
  intros Ho Hex. run. rewrite Ho, Hex.
  destruct (decide (existing = obj)) as [->|Hne].
  - split; [|congruence]. intros H. exfalso.
    repeat (case_match; cbn [fst snd] in * ); simplify_eq.
  - cbn. split; [intros _; exact Hne | reflexivity].
Qed.
(** The object held at [index] has been settled there by [add]: it is
    recorded as an alias of another index, or it carries [index] as its
    [regIx] and its label, if any, points back to [index]. *)
Definition settled w (index : Z) (obj : ObjRef) : Prop :=
  exists o,
    heap w !! obj = Some o
    /\ _pyObjs (registry w) !! index = Some obj
    /\ (is_alias D o index = true
        \/ (regIx o = Some index
            /\ match _label o with
               | Some l => _labels (registry w) !! l = Some index
               | None => True
               end)).

Lemma add_settles w index obj label w1 :
  add index obj label w = (Ok tt, w1) -> settled w1 index obj.
Proof.
  intros H. unfold add in H. unfold bind at 1, get at 1 in H.
  destruct (heap w !! obj) as [o|] eqn:Ho; [|discriminate].
  run.
  repeat (case_match; cbn [fst snd] in * ); simplify_eq.
  all: unfold settled; cbn [heap registry stdout _pyObjs _labels] in *.
  all: rewrite ?lookup_alter_eq, ?Ho; cbn [fmap option_fmap option_map].
  all: eexists; split; [reflexivity|]; split; [apply lookup_insert_eq|].
  all: try (left; assumption).
  all: right; cbn [regIx _label structure]; split; [reflexivity|].
  all: repeat match goal with E : _label _ = _ |- _ => rewrite E end.
  all: try exact I; try apply lookup_insert_eq.
  all: match goal with
       | E : Z.eqb ?z _ = true, L : _ !! _ = Some ?z |- _ =>
           apply Z.eqb_eq in E; rewrite <- E; exact L
       end.
Qed.

Lemma add_settled_again w index obj :
  settled w index obj ->
  exists notices,
    add index obj None w =
    (Ok tt, {| heap := heap w; registry := registry w;
               stdout := stdout w ++ notices |}).
Proof.
  intros (o & Ho & Hix & Hcase).
  assert (Hins : <[index:=obj]> (_pyObjs (registry w)) = _pyObjs (registry w))
    by (now apply insert_id).
  unfold add. unfold bind at 1, get at 1. rewrite Ho, Hix.
  rewrite decide_True by reflexivity.
  destruct Hcase as [Halias | [Hreg Hlab]].
  - exists []. run. rewrite Halias, Hins, app_nil_r. cbn.
    now destruct w as [h [p l] s].
  - assert (Hna : is_alias D o index = false)
      by (unfold is_alias; rewrite Hreg, Z.eqb_refl; reflexivity).
    assert (Hid : forall l, _label o = l ->
              alter (fun o1 => {| regIx := Some index; _label := _label o1;
                                  structure := structure o1 |}) obj
                (alter (fun o1 => {| regIx := regIx o1; _label := l;
                                     structure := structure o1 |}) obj (heap w))
              = heap w).
    { intros l Hl. rewrite !alter_id; [reflexivity| |].
      - intros x Hx. rewrite Ho in Hx. injection Hx as <-.
        destruct o; cbn in *; congruence.
      - intros x Hx. rewrite lookup_alter_eq, Ho in Hx. cbn in Hx.
        injection Hx as <-. cbn. destruct o; cbn in *; congruence. }
    destruct (_label o) as [l|] eqn:Hl.
    + exists [LabelAlreadyRegistered l obj]. run. rewrite Hna. cbn.
      rewrite Hlab, Hins, Hix, Z.eqb_refl. cbn [fst snd heap registry stdout].
      rewrite (Hid (Some l) eq_refl).
      now destruct w as [h [p lb] s].
    + exists []. run. rewrite Hna, Hins, app_nil_r. cbn.
      rewrite alter_id.
      * now destruct w as [h [p lb] s].
      * intros x Hx. rewrite Ho in Hx. injection Hx as <-.
        destruct o; cbn in *; congruence.
Qed.
End AddFacts.

(** C4 (as amended).  With [index] already present, [add] raises the
    conflict error exactly when [obj] is not the very object stored at
    [index] (the comparison is by identity, whatever the structure of the
    two objects); and once an [add(index, obj, label)] has returned,
    adding the same object at the same index again raises nothing and
    leaves the registry and the objects unchanged (it may print the
    "label already registered" notice). *)
Theorem add_readd_by_identity {D : Type}
    (w : World D) (index : Z) (obj : ObjRef) (label : option string)
    (o : SspPyObj D) (existing : ObjRef) :
  heap w !! obj = Some o ->
  _pyObjs (registry w) !! index = Some existing ->
  (fst (add index obj label w) = Raise (ParseError conflict_text)
     <-> existing <> obj)
  /\ (forall w1, add index obj label w = (Ok tt, w1) ->
        existing = obj
        /\ exists notices,
             add index obj None w1 =
             (Ok tt, {| heap := heap w1; registry := registry w1;
                        stdout := stdout w1 ++ notices |})).
Proof.
  intros Ho Hex. split; [now apply add_conflict_iff with o|].
  intros w1 H1. split.
  - destruct (decide (existing = obj)) as [|Hne]; [assumption|exfalso].
    apply (add_conflict_iff w index obj label o existing Ho Hex) in Hne.
    rewrite H1 in Hne. discriminate.
  - eapply add_settled_again, add_settles, H1.
Qed.

(** C4 as stated fails: the registry holds a [Fixpoint(1,16,2)] type at
    index 5; adding a second object with the same structure at index 5 is
    refused with the conflict error. *)
Lemma add_rejects_structural_twin :
  (structure <$> heap twin_world !! 1%nat) = (structure <$> heap twin_world !! 2%nat)
  /\ _pyObjs (registry twin_world) !! 5 = Some 1%nat
  /\ add 5 2%nat None twin_world = (Raise (ParseError conflict_text), twin_world).
Proof. repeat split; vm_compute; reflexivity. Qed.

Lemma add_readd_by_identity_witness :
  (fst (add 5 1%nat None twin_world) = Raise (ParseError conflict_text)
     <-> 1%nat <> 1%nat)
  /\ (forall w1, add 5 1%nat None twin_world = (Ok tt, w1) ->
        1%nat = 1%nat
        /\ exists notices,
             add 5 1%nat None w1 =
             (Ok tt, {| heap := heap w1; registry := registry w1;
                        stdout := stdout w1 ++ notices |})).
Proof.
  apply (add_readd_by_identity twin_world 5 1%nat None
           (mkObj (Some 5) None (true, 16, 2)) 1%nat);
    vm_compute; reflexivity.
Defined.


(** *** Lookups after [add] *)

Section LookupFacts.
Context {D : Type}.
Implicit Types (w : World D) (o : SspPyObj D).

Ltac run_add :=
  unfold add, bind, get, assert, set_pyObj, set_label,
    update_obj, print, modify, ret, raise in *; cbn [heap registry stdout _pyObjs _labels fst snd] in *.

(** Every label of the registry leads to an entry. *)
Definition labels_wf (r : RegistryClass) : Prop :=
  forall l ix, _labels r !! l = Some ix -> is_Some (_pyObjs r !! ix).

Ltac tidy :=
  repeat match goal with
         | H : label_agrees (Some _) _ = true |- _ =>
             cbn [label_agrees] in H; apply String.eqb_eq in H; subst
         | H : (_ =? _) = true |- _ => apply Z.eqb_eq in H; subst
         | H : bool_decide _ = true |- _ =>
             apply bool_decide_eq_true in H; try discriminate
         end;
  simplify_eq;
  repeat (match goal with
          | H : <[?k:=_]> _ !! ?k = _ |- _ => rewrite lookup_insert_eq in H
          | H1 : ?m !! ?k = _, H2 : ?m !! ?k = _ |- _ => rewrite H1 in H2
          end; simplify_eq).

(** X27.  Adding with a label, then looking up.  Once
    [add(index, obj, label)] with a label has returned, the object is
    found under the index by [get_by_regIx] and under the label by
    [get_by_label], and the object itself records the index as its
    [regIx] and the label as its [_label]. *)
Theorem add_labelled_then_lookup w index obj l w1 :
  add index obj (Some l) w = (Ok tt, w1) ->
  get_by_regIx (registry w1) index = Some obj
  /\ get_by_label (registry w1) l = Ok (Some obj)
  /\ exists o1, heap w1 !! obj = Some o1
       /\ regIx o1 = Some index /\ _label o1 = Some l.
Proof.
  intros H. unfold add in H. unfold bind at 1, get at 1 in H.
  destruct (heap w !! obj) as [o|] eqn:Ho; [|discriminate].
  run_add. unfold get_by_regIx, get_by_label.
  repeat (case_match; cbn [fst snd] in * ); simplify_eq.
  all: cbn [heap registry stdout _pyObjs _labels] in *.
  all: tidy.
  all: rewrite ?lookup_insert_eq, ?lookup_alter_eq, ?Ho; cbn [fmap option_fmap option_map].
  all: split; [reflexivity|]; split; [reflexivity|]; eexists; split; [reflexivity|];
       cbn [regIx _label]; split; reflexivity.
Qed.

(** X28.  A failed [add] is not undone.  When [add] raises, it is the
    conflict error (the index holds another object; nothing has changed),
    or an AssertionError or KeyError raised after the entry was written:
    then the registry already holds [obj] at [index], although the object
    itself has not been updated.  (The fourth case is the dangling
    reference of the model.) *)
Theorem add_failure_leaves_entry w index obj label e w1 :
  add index obj label w = (Raise e, w1) ->
  (e = ParseError conflict_text /\ w1 = w
   /\ exists existing,
        _pyObjs (registry w) !! index = Some existing /\ existing <> obj)
  \/ ((e = AssertionError \/ e = KeyError)
      /\ _pyObjs (registry w1) !! index = Some obj
      /\ heap w1 = heap w)
  \/ (e = Exception "no such object" /\ w1 = w /\ heap w !! obj = None).
Proof.
  intros H. unfold add in H. unfold bind at 1, get at 1 in H.
  destruct (heap w !! obj) as [o|] eqn:Ho;
    [|right; right; unfold raise in H; now simplify_eq].
  run_add.
  repeat (case_match; cbn [fst snd] in * ); simplify_eq.
  all: cbn [heap registry stdout _pyObjs _labels] in *.
  all: try (left; split; [reflexivity|]; split; [reflexivity|]; eauto; fail).
  all: right; left; split; [tauto|]; split; [apply lookup_insert_eq | reflexivity].
Qed.

(** X29.  Labels always lead to entries.  If every label of the
    registry points to an index that has an entry, this is still so after
    [add], whatever its arguments and whether it returns or raises; and
    in such a registry [get_by_label] never raises. *)
Theorem add_keeps_labels_resolvable w index obj label :
  labels_wf (registry w) ->
  labels_wf (registry (snd (add index obj label w)))
  /\ forall l, exists found,
       get_by_label (registry (snd (add index obj label w))) l = Ok found.
Proof.
  intros Hwf.
  assert (forall r, labels_wf r ->
            forall l, exists found, get_by_label r l = Ok found) as Hget.
  { intros r Hr l. unfold get_by_label.
    destruct (_labels r !! l) as [ix|] eqn:E; [|eauto].
    destruct (Hr l ix E) as [o' ->]. eauto. }
  enough (labels_wf (registry (snd (add index obj label w)))) by auto.
  assert (forall (p : gmap Z ObjRef) (lb : gmap string Z),
            labels_wf {| _pyObjs := p; _labels := lb |} ->
            labels_wf {| _pyObjs := <[index := obj]> p; _labels := lb |}) as Hins.
  { intros p lb Hr l ix E. cbn [_labels _pyObjs] in *.
    destruct (decide (ix = index)) as [->|Hne];
      [rewrite lookup_insert_eq; eauto|].
    rewrite lookup_insert_ne by congruence. exact (Hr l ix E). }
  assert (forall (p : gmap Z ObjRef) (lb : gmap string Z) l,
            labels_wf {| _pyObjs := p; _labels := lb |} ->
            labels_wf {| _pyObjs := <[index := obj]> p;
                         _labels := <[l := index]> lb |}) as Hins2.
  { intros p lb l0 Hr l ix E. cbn [_labels _pyObjs] in *.
    destruct (decide (l = l0)) as [->|Hne].
    - rewrite lookup_insert_eq in E. simplify_eq. rewrite lookup_insert_eq. eauto.
    - rewrite lookup_insert_ne in E by congruence.
      apply (Hins p lb Hr l ix E). }
  destruct w as [h [p lb] out]. cbn [registry] in Hwf.
  unfold add. unfold bind at 1, get at 1. cbn [heap registry].
  destruct (h !! obj) as [o|] eqn:Ho; [|exact Hwf].
  run_add.
  repeat (case_match; cbn [fst snd] in * ); simplify_eq.
  all: cbn [heap registry stdout _pyObjs _labels snd] in *.
  all: first [exact Hwf | apply Hins; exact Hwf | apply Hins2; exact Hwf].
Qed.
End LookupFacts.

Lemma add_labelled_then_lookup_witness :
  exists w1,
    add 7 2%nat (Some "Temperature") twin_world = (Ok tt, w1)
    /\ get_by_regIx (registry w1) 7 = Some 2%nat
    /\ get_by_label (registry w1) "Temperature" = Ok (Some 2%nat)
    /\ exists o1, heap w1 !! 2%nat = Some o1
         /\ regIx o1 = Some 7 /\ _label o1 = Some "Temperature".
Proof.
  eexists. split; [vm_compute; reflexivity|].
  apply (add_labelled_then_lookup twin_world 7 2%nat "Temperature").
  vm_compute. reflexivity.
Defined.

Lemma add_failure_leaves_entry_witness :
  exists w1,
    add 9 1%nat (Some "alias") twin_world = (Raise AssertionError, w1)
    /\ _pyObjs (registry w1) !! 9 = Some 1%nat
    /\ heap w1 = heap twin_world.
Proof.
  eexists. split; [vm_compute; reflexivity|].
  destruct (add_failure_leaves_entry twin_world 9 1%nat (Some "alias")
              AssertionError _ ltac:(vm_compute; reflexivity))
    as [(H & _)|[(_ & H)|(H & _)]]; [discriminate | exact H | discriminate].
Defined.

Lemma add_keeps_labels_resolvable_witness :
  labels_wf (registry (snd (add 7 2%nat (Some "Temperature") twin_world)))
  /\ forall l, exists found,
       get_by_label (registry (snd (add 7 2%nat (Some "Temperature") twin_world))) l
       = Ok found.
Proof.
  apply (add_keeps_labels_resolvable twin_world 7 2%nat (Some "Temperature")).
  intros l ix H. vm_compute in H. discriminate.
Defined.

End OntologyFacts.

(* ===================================================================== *)
(** ** core/ssplink.py: protocol constants *)
(* ===================================================================== *)

Module Ssplink.
Definition SSP_INVALID_COMPONENT_ID : Z := 0.
Definition SSP_CENTRAL_ID : Z := 1.
Definition SSP_LINK_ID : Z := 255.
Definition SSP_COMPONENT_MODULUS : Z := 128.
Definition SSP_BIGGEST_REGULAR_COMPONENT_ID : Z := SSP_COMPONENT_MODULUS - 4.
End Ssplink.

(* ===================================================================== *)
(** ** core/network.py: the directory of the central *)
(* ===================================================================== *)

Module Network.
Import Ssplink.

(** A Python value, as far as [==] and [str] on the directory need it. *)
Inductive PyVal :=
| PyNone
| PyInt (z : Z)
| PyStr (s : string).

(** [a == b]: values of different types are never equal. *)
Definition py_eq (a b : PyVal) : bool :=
  match a, b with
  | PyNone, PyNone => true
  | PyInt x, PyInt y => x =? y
  | PyStr x, PyStr y => String.eqb x y
  | _, _ => false
  end.

(** [str(v)] *)
Definition str (v : PyVal) : string :=
  match v with
  | PyNone => "None"
  | PyInt z => pretty z
  | PyStr s => s
  end.

(** An element of [all_components]: a dict with keys name, serial, id.
    The id and the serial are ints (a component id, a Uint32). *)
Record ComponentEntry := mkEntry {
  id : Z;
  name : string;
  serial : Z
}.

Record Central := mkCentral {
  all_components : list ComponentEntry
}.

(** [Central.get_component_ids] *)
Definition get_component_ids (c : Central) : list Z :=
  flat_map (fun info => if id info =? 0 then [] else [id info]) (all_components c).

(** [Central.lookupId] *)
Definition lookupId (c : Central) (string : PyVal) : Z :=
  let string := PyStr (str string) in
  (fix loop (components : list ComponentEntry) : Z :=
     match components with
     | [] => SSP_INVALID_COMPONENT_ID
     | component :: rest =>
         if py_eq string (PyStr (name component))
            || py_eq string (PyInt (serial component))
            || py_eq string (PyStr (str (PyInt (id component))))
         then id component
         else loop rest
     end) (all_components c).

(** [Central.key_to_info] for the key ['id'], and [is_component_registered]. *)
Definition id_to_info (c : Central) (_id : Z) : option ComponentEntry :=
  List.find (fun info => id info =? _id) (all_components c).
Definition serial_to_info (c : Central) (s : Z) : option ComponentEntry :=
  List.find (fun info => serial info =? s) (all_components c).
Definition name_to_info (c : Central) (n : string) : option ComponentEntry :=
  List.find (fun info => String.eqb (name info) n) (all_components c).
Definition is_component_registered (c : Central) (_id : Z) : bool :=
  match id_to_info c _id with Some _ => true | None => false end.


(** *** Registration *)

(** [is_valid_component_id] *)
Definition is_valid_component_id (_id : Z) : bool :=
  negb (_id =? SSP_INVALID_COMPONENT_ID)
  && negb (_id =? SSP_LINK_ID)
  && (_id >? 0)
  && (_id <=? SSP_BIGGEST_REGULAR_COMPONENT_ID).

(** [list(range(start, stop))] *)
Definition range (start stop : Z) : list Z :=
  List.map (fun k => start + Z.of_nat k) (seq 0 (Z.to_nat (stop - start))).

(** [x in l] and [l.remove(x)] (which drops the first occurrence) on a
    list of ints. *)
Definition list_in (x : Z) (l : list Z) : bool := existsb (Z.eqb x) l.
Fixpoint list_remove (x : Z) (l : list Z) : list Z :=
  match l with
  | [] => []
  | y :: rest => if y =? x then rest else y :: list_remove x rest
  end.

(** [Central._find_free_id] *)
Definition _find_free_id (c : Central) : option Z :=
  let free_ids :=
    fold_left (fun free_ids info =>
                 if list_in (id info) free_ids
                 then list_remove (id info) free_ids
                 else free_ids)
              (all_components c)
              (range 1 SSP_BIGGEST_REGULAR_COMPONENT_ID) in
  match free_ids with
  | [] => None    (* Could try again, reusing previously used id *)
  | first :: _ => Some first
  end.

(** [Central._name_exists] *)
Definition _name_exists (c : Central) (name : string) : bool :=
  match name_to_info c name with Some _ => true | None => false end.

(** Group 1 of [re.match("(.*_)[0-9]*", name)]: the longest prefix of
    the first line of [name] that ends in an underscore ([.] does not
    match a newline); [None] when there is no match. *)
Fixpoint match_base (name : string) : option string :=
  match name with
  | EmptyString => None
  | String ch rest =>
      if Ascii.eqb ch "010" then None
      else match match_base rest with
           | Some prefix => Some (String ch prefix)
           | None => if Ascii.eqb ch "_" then Some (String ch EmptyString) else None
           end
  end.

(** [for ix in range(1, 200): name = base + str(ix); if not
    self._name_exists(name): break], as the value of [name] after it. *)
Fixpoint pick_name (c : Central) (base : string) (ixs : list Z) (name : string)
  : string :=
  match ixs with
  | [] => name
  | ix :: rest =>
      let name := (base ++ pretty ix)%string in
      if negb (_name_exists c name) then name   (* Found free name *)
      else pick_name c base rest name
  end.

(** [Central._do_register]: the directory with the new entry, and the
    text of the trace event if the name had to be changed. *)
Definition _do_register (c : Central) (_id : Z) (name : string) (serial : Z)
  : Central * option string :=
  let '(name, trace) :=
    if _name_exists c name then
      let old_name := name in
      let base := match match_base name with
                  | Some base => base
                  | None => (name ++ "_")%string
                  end in
      let name := pick_name c base (range 1 200) name in
      (name, Some ("Change the name " ++ old_name ++ " to " ++ name)%string)
    else (name, None) in
  ({| all_components :=
        all_components c ++ [{| id := _id; name := name; serial := serial |}] |},
   trace).

(** What [Central.register] does. *)
Inductive Registration :=
| AlreadyKnown (_id : Z)
    (* returns [_id]; the directory is not touched *)
| Registered (_id : Z) (c' : Central) (trace : option string)
    (* [_do_register] has run; returns [_id] *)
| NoFreeId.
    (* [_find_free_id] returned [None]: the source goes on to register
       the component under the id [None] and returns [None]; the
       directory of this model has integer ids only *)

(** [Central.register(cinfo)], from the three fields of [cinfo] it
    reads. *)
Definition register (c : Central) (cinfo_id : Z) (cinfo_name : string)
    (cinfo_serial : Z) : Registration :=
  (* Can we use the suggested ID?  [inl]: return; [inr]: suggested_id *)
  let after_id : Z + option Z :=
    if is_valid_component_id cinfo_id then
      match id_to_info c cinfo_id with
      | None => inr (Some cinfo_id)                    (* Unknown id *)
      | Some prev_info =>
          if serial prev_info =? cinfo_serial
          then inl cinfo_id          (* We already registered this component *)
          else inr None              (* Already registered to someone else *)
      end
    else inr (Some cinfo_id) in
  match after_id with
  | inl r => AlreadyKnown r
  | inr suggested_id =>
      (* Do we know of the serial number? *)
      match (if negb (cinfo_serial =? 0) then serial_to_info c cinfo_serial
             else None) with
      | Some prev_info => AlreadyKnown (id prev_info)
      | None =>
          let suggested_id :=
            match suggested_id with
            | Some s => if s =? 0 then _find_free_id c else Some s
            | None => _find_free_id c
            end in
          match suggested_id with
          | Some s =>
              let '(c', trace) := _do_register c s cinfo_name cinfo_serial in
              Registered s c' trace
          | None => NoFreeId
          end
      end
  end.

End Network.

(* ===================================================================== *)
(** ** core/componentbase.py: ComponentBase *)
(* ===================================================================== *)

Module Componentbase.
Import Ssplink.

(** The identity of an [ssplink.Link] object, of a callable, and of a
    [LocalInternalObject]. *)
Definition Link := nat.
Definition Callback := nat.
Definition InternalObject := nat.

(** A value of type [Any] inside a message. *)
Inductive Payload :=
| PNone
| PInt (z : Z)
| PStr (s : string).

(** A message: the tagged variant of core/messages.py, selected by the
    action field ['a']. *)
Inductive Msg :=
| Cinfo (ver magicByte tk serial id parent prio profiles vocabulary : Z)
        (name : string)
| Newid (tk id prio : Z) (name : string)
| Reply (from tk : Z) (b : Payload)
| Ack (from tk : Z) (b : Payload)
| Nack (from tk code : Z)
| Rep (map : list (Z * list (string * Payload)))
| Call (from_tk : option (Z * Z)) (sym : string) (arg : Payload)
| Get (var : list string)
| Uget (from_tk : option (Z * Z)) (var : list string)
| Set_ (from_tk : option (Z * Z)) (map : list (string * Payload))
| Sub (from : Z) (sym : list string)
| Unsub (from : Z) (sym : list string)
| GetVarList (from tk : Z).

(** [msg['a']] *)
Definition action (msg : Msg) : string :=
  match msg with
  | Cinfo _ _ _ _ _ _ _ _ _ _ => "cinfo"
  | Newid _ _ _ _ => "newid"
  | Reply _ _ _ => "reply"
  | Ack _ _ _ => "ack"
  | Nack _ _ _ => "nack"
  | Rep _ => "rep"
  | Call _ _ _ => "call"
  | Get _ => "get"
  | Uget _ _ => "uget"
  | Set_ _ _ => "set"
  | Sub _ _ => "sub"
  | Unsub _ _ => "unsub"
  | GetVarList _ _ => "getVarList"
  end.

(** The argument of an event handed to [component.emit_event]. *)
Inductive Evt :=
| EvtText (text : string)
| EvtInvalidTo (msg : Msg)
    (* {'why': 'invalid to', 'msg': msg} *)
| EvtSameLink (fromLink : Link) (msg : Msg) (text : string)
    (* {'fromLink': from_link, 'msg': msg, 'text': text} *)
| EvtSameParentLink (link : Link) (to : Z) (msg : Msg) (text : string)
    (* {'link': from_link, 'to': to, 'msg': msg, 'text': text} *)
| EvtRoute (toLink : Z) (why_default : bool) (msg : Msg)
    (* {'toLink': ix, ['why': 'default',] 'msg': msg} *)
| EvtNoRoute (to : Z) (msg : Msg).
    (* {'text': 'Dropping msg due to no route', 'to': to, 'msg': msg} *)

(** What a method does to its collaborators: the owning component, the
    links, the internal objects, the system view and stdout.  A call is
    recorded and taken to return. *)
Inductive Effect :=
| EmitEvent (evtType : string) (evt : Evt)   (* component.emit_event *)
| Send (link : Link) (to : Z) (msg : Msg)    (* link.send(to, msg) *)
| MarkAsUpdated (variable : string)          (* component.mark_as_updated *)
| ComponentOnNetworked                       (* component.on_networked() *)
| ComponentOnNonNetworked                    (* component.on_non_networked() *)
| InternalOnNetworked (internalId : Z)
| InternalOnNonNetworked (internalId : Z)
| RegisterReport (oid : Z)   (* the_system.get_proxy(oid).register_report *)
| PrintOut (text : string).

Record ComponentBase := mkComponentBase {
  _link_neighbors : gmap Link Z   (* Direct neighbors: map from Link to componentId *);
  links : list (option Link)   (* All known links; the index is the link id *);
  routes : gmap Z Link   (* Map from componentId to Link *);
  parent : Z;
  base_priority : Z   (* If > 0, we will attempt to be central *);
  priority : Z;
  name : string;
  componentId : Z   (* 0 = not networked *);
  serial : Z;
  reply_callbacks : gmap Z Callback   (* Mapping from ticket to callback *);
  _last_ticket : Z;
  _internal_objects : list (Z * InternalObject)   (* Map from internalId to object, in insertion order *);
  _central : option Network.Central;
  log : list Effect   (* calls made on collaborators, oldest first *)
}.

Definition set_link_neighbors (v : gmap Link Z) (self : ComponentBase) : ComponentBase :=
  {| _link_neighbors := v; links := links self; routes := routes self; parent := parent self; base_priority := base_priority self; priority := priority self; name := name self; componentId := componentId self; serial := serial self; reply_callbacks := reply_callbacks self; _last_ticket := _last_ticket self; _internal_objects := _internal_objects self; _central := _central self; log := log self |}.
Definition set_routes (v : gmap Z Link) (self : ComponentBase) : ComponentBase :=
  {| _link_neighbors := _link_neighbors self; links := links self; routes := v; parent := parent self; base_priority := base_priority self; priority := priority self; name := name self; componentId := componentId self; serial := serial self; reply_callbacks := reply_callbacks self; _last_ticket := _last_ticket self; _internal_objects := _internal_objects self; _central := _central self; log := log self |}.
Definition set_parent (v : Z) (self : ComponentBase) : ComponentBase :=
  {| _link_neighbors := _link_neighbors self; links := links self; routes := routes self; parent := v; base_priority := base_priority self; priority := priority self; name := name self; componentId := componentId self; serial := serial self; reply_callbacks := reply_callbacks self; _last_ticket := _last_ticket self; _internal_objects := _internal_objects self; _central := _central self; log := log self |}.
Definition set_priority (v : Z) (self : ComponentBase) : ComponentBase :=
  {| _link_neighbors := _link_neighbors self; links := links self; routes := routes self; parent := parent self; base_priority := base_priority self; priority := v; name := name self; componentId := componentId self; serial := serial self; reply_callbacks := reply_callbacks self; _last_ticket := _last_ticket self; _internal_objects := _internal_objects self; _central := _central self; log := log self |}.
Definition set_componentId (v : Z) (self : ComponentBase) : ComponentBase :=
  {| _link_neighbors := _link_neighbors self; links := links self; routes := routes self; parent := parent self; base_priority := base_priority self; priority := priority self; name := name self; componentId := v; serial := serial self; reply_callbacks := reply_callbacks self; _last_ticket := _last_ticket self; _internal_objects := _internal_objects self; _central := _central self; log := log self |}.
Definition set_reply_callbacks (v : gmap Z Callback) (self : ComponentBase) : ComponentBase :=
  {| _link_neighbors := _link_neighbors self; links := links self; routes := routes self; parent := parent self; base_priority := base_priority self; priority := priority self; name := name self; componentId := componentId self; serial := serial self; reply_callbacks := v; _last_ticket := _last_ticket self; _internal_objects := _internal_objects self; _central := _central self; log := log self |}.
Definition set_last_ticket (v : Z) (self : ComponentBase) : ComponentBase :=
  {| _link_neighbors := _link_neighbors self; links := links self; routes := routes self; parent := parent self; base_priority := base_priority self; priority := priority self; name := name self; componentId := componentId self; serial := serial self; reply_callbacks := reply_callbacks self; _last_ticket := v; _internal_objects := _internal_objects self; _central := _central self; log := log self |}.
Definition set_central (v : option Network.Central) (self : ComponentBase) : ComponentBase :=
  {| _link_neighbors := _link_neighbors self; links := links self; routes := routes self; parent := parent self; base_priority := base_priority self; priority := priority self; name := name self; componentId := componentId self; serial := serial self; reply_callbacks := reply_callbacks self; _last_ticket := _last_ticket self; _internal_objects := _internal_objects self; _central := v; log := log self |}.
Definition set_log (v : list Effect) (self : ComponentBase) : ComponentBase :=
  {| _link_neighbors := _link_neighbors self; links := links self; routes := routes self; parent := parent self; base_priority := base_priority self; priority := priority self; name := name self; componentId := componentId self; serial := serial self; reply_callbacks := reply_callbacks self; _last_ticket := _last_ticket self; _internal_objects := _internal_objects self; _central := _central self; log := v |}.

Definition emit (e : Effect) : M ComponentBase unit :=
  modify (fun self => set_log (log self ++ [e]) self).

(** [ComponentBase.__init__] *)
Definition init (name : string) (serial : Z) : ComponentBase :=
  {| _link_neighbors := ∅; links := []; routes := ∅; parent := 0;
     base_priority := 0; priority := 0; name := name; componentId := 0;
     serial := serial; reply_callbacks := ∅; _last_ticket := 0;
     _internal_objects := []; _central := None; log := [] |}.

(** [is_central] *)
Definition is_central (self : ComponentBase) : bool :=
  componentId self =? SSP_CENTRAL_ID.

(** [parent_link] *)
Definition parent_link : M ComponentBase (option Link) :=
  (let* self := get in
   if parent self =? 0 then ret None
   else match routes self !! parent self with
        | Some l => ret (Some l)
        | None => raise KeyError
        end)%py.

(** [emit_event] and [error] *)
Definition emit_event (evtType : string) (evt : Evt) : M ComponentBase unit :=
  emit (EmitEvent evtType evt).
Definition error (evt : Evt) : M ComponentBase unit :=
  emit (EmitEvent "linkErrEvt" evt).

(** One turn of the loop of [make_ticket_with_callback]. *)
Definition next_ticket (last : Z) : Z :=
  if last >=? 250 then 1 else last + 1.

(** [for i in range(n): ...; if self._last_ticket not in
    self.reply_callbacks: break], as the value of [_last_ticket] after it. *)
Fixpoint advance (n : nat) (last : Z) (callbacks : gmap Z Callback) : Z :=
  match n with
  | O => last
  | S n' =>
      let last' := next_ticket last in
      match callbacks !! last' with
      | None => last'                       (* break *)
      | Some _ => advance n' last' callbacks
      end
  end.

(** [make_ticket_with_callback] *)
Definition make_ticket_with_callback (callback : Callback)
  : M ComponentBase Z :=
  (let* self := get in
   let last := advance 250 (_last_ticket self) (reply_callbacks self) in
   modify (set_last_ticket last) >>
   match reply_callbacks self !! last with
   | Some _ => raise (Exception "All tickets are occupied")
   | None =>
       modify (fun self =>
         set_reply_callbacks (<[last := callback]> (reply_callbacks self)) self) >>
       ret last
   end)%py.

(** [remove_ticket] *)
Definition remove_ticket (ticket : Z) : M ComponentBase unit :=
  (let* self := get in
   match reply_callbacks self !! ticket with
   | None => ret tt                           (* return *)
   | Some _ =>
       modify (set_reply_callbacks (delete ticket (reply_callbacks self)))
   end)%py.

(** [for x in xs: f x] *)
Fixpoint for_each {A} (xs : list A) (f : A -> M ComponentBase unit)
  : M ComponentBase unit :=
  match xs with
  | [] => ret tt
  | x :: rest => (f x >> for_each rest f)%py
  end.

(** [on_networked] and [on_non_networked] *)
Definition on_networked : M ComponentBase unit :=
  (emit ComponentOnNetworked >>
   let* self := get in
   for_each (_internal_objects self)
     (fun io => emit (InternalOnNetworked (fst io))))%py.

Definition on_non_networked : M ComponentBase unit :=
  (emit ComponentOnNonNetworked >>
   let* self := get in
   for_each (_internal_objects self)
     (fun io => emit (InternalOnNonNetworked (fst io))))%py.

(** [forget_network] *)
Definition forget_network : M ComponentBase unit :=
  (emit_event "traceEvt" (EvtText "Forget network") >>
   modify (set_parent 0) >>
   modify (fun self =>
     set_link_neighbors ((fun _ => 0) <$> _link_neighbors self) self) >>
   on_non_networked)%py.

(** [Central.init_all_local], run by [Central.__init__]: one entry for
    every [ComponentBase] of the process, with the id, name and serial it
    has at that moment. *)
Definition init_all_local (all_componentbases : list ComponentBase)
  : M ComponentBase Network.Central :=
  (let c := {| Network.all_components :=
                 List.map (fun base =>
                   {| Network.id := componentId base;
                      Network.name := name base;
                      Network.serial := serial base |}) all_componentbases |} in
   emit (MarkAsUpdated "components") >>
   ret c)%py.

(** [Central.act_as_central] (network.py), on the base of the central. *)
Definition Central_act_as_central : M ComponentBase unit :=
  (let* self := get in
   assert (base_priority self >? 0) >>
   modify (set_priority (base_priority self)) >>
   modify (set_componentId SSP_CENTRAL_ID) >>
   modify (set_parent 0) >>
   emit (MarkAsUpdated "parent") >>
   emit (MarkAsUpdated "priority") >>
   emit (MarkAsUpdated "componentId") >>
   on_networked)%py.   (* We're the single node in the net... *)

(** [ComponentBase.act_as_central].  [all_componentbases] is the module's
    list of every [ComponentBase] created so far; it holds the node itself. *)
Definition act_as_central (all_componentbases : list ComponentBase)
  : M ComponentBase unit :=
  (let* self := get in
   assert (match _central self with None => true | Some _ => false end) >>
   let* c := init_all_local all_componentbases in
   modify (set_central (Some c)) >>
   Central_act_as_central)%py.

(** [self.links.index(link)] *)
Fixpoint index_of (l : list (option Link)) (link : Link) : option Z :=
  match l with
  | [] => None
  | x :: rest =>
      if decide (x = Some link) then Some 0
      else match index_of rest link with
           | Some i => Some (i + 1)
           | None => None
           end
  end.

Definition links_index (link : Link) : M ComponentBase Z :=
  (let* self := get in
   match index_of (links self) link with
   | Some i => ret i
   | None => raise ValueError
   end)%py.

Section HandleMessage.
(** The module flag [print_received_messages]. *)
Variable print_received_messages : bool.

(** What the node does with a message addressed to itself
    ([to == self.componentId], the branch of lines 313-357) and with a
    link-local one ([to == SSP_LINK_ID], lines 362-399): the topology
    and ticket handlers.  The routing below does not depend on them. *)
Variable handle_addressed : Link -> Msg -> Z -> M ComponentBase unit.
Variable handle_link_local : Link -> Msg -> Z -> M ComponentBase unit.

(** [handle_message(from_link, to, msg, timestamp)], for an integer
    [to]. *)
Definition handle_message (from_link : Link) (to : Z) (msg : Msg)
    (timestamp : Z) : M ComponentBase unit :=
  (when print_received_messages (emit (PrintOut "Received")) >>
   (* ROUTING *)
   if to =? SSP_INVALID_COMPONENT_ID then
     emit (PrintOut "Warning: Dropping message without 'to'") >>
     error (EvtInvalidTo msg)
   else
     (* LOGGING *)
     match msg with
     | Rep map => for_each map (fun entry => emit (RegisterReport (fst entry)))
     | _ => ret tt
     end >>
     let* self := get in
     if (to =? componentId self)
        && negb (componentId self =? SSP_INVALID_COMPONENT_ID)
     then handle_addressed from_link msg timestamp
     else if to =? SSP_LINK_ID
     then handle_link_local from_link msg timestamp
     else
       let componentId := to mod SSP_COMPONENT_MODULUS in
       match routes self !! componentId with
       | Some to_link =>
           if decide (to_link = from_link) then
             error (EvtSameLink from_link msg
                      "Dropping msg that would be sent back on same link")
           else
             let* ix := links_index to_link in
             emit_event "routeMsgEvt" (EvtRoute ix false msg) >>
             emit (Send to_link to msg)     (* Forward the message *)
       | None =>
           let* pl := parent_link in
           match pl with
           | Some parent_link =>
               if decide (parent_link = from_link) then
                 error (EvtSameParentLink from_link to msg
                   "Dropping msg with unknown recipient, where msg would be sent back on same link")
               else
                 let* ix := links_index parent_link in
                 emit_event "routeMsgEvt" (EvtRoute ix true msg) >>
                 emit (Send parent_link to msg)
           | None => error (EvtNoRoute to msg)
           end
       end)%py.

(** The link the router picks for [to]: the routing-table entry, or
    else the parent link. *)
Definition next_hop (self : ComponentBase) (to : Z) : option Link :=
  match routes self !! (to mod SSP_COMPONENT_MODULUS) with
  | Some l => Some l
  | None => if parent self =? 0 then None else routes self !! parent self
  end.
End HandleMessage.


(** *** Neighbors, cinfo and newid *)

(** [constants.SSP_VERSION] and [constants.SSP_MAGIC_BYTE] (0xA6) *)
Definition SSP_VERSION : Z := 3.
Definition SSP_MAGIC_BYTE : Z := 166.

Definition set_name (v : string) (self : ComponentBase) : ComponentBase :=
  {| _link_neighbors := _link_neighbors self; links := links self; routes := routes self; parent := parent self; base_priority := base_priority self; priority := priority self; name := v; componentId := componentId self; serial := serial self; reply_callbacks := reply_callbacks self; _last_ticket := _last_ticket self; _internal_objects := _internal_objects self; _central := _central self; log := log self |}.

(** [register_neighbor] *)
Definition register_neighbor (link : Link) (componentId : Z)
  : M ComponentBase unit :=
  (modify (fun self =>
     set_link_neighbors (<[link := componentId]> (_link_neighbors self)) self) >>
   modify (fun self =>
     set_routes (<[componentId := link]> (routes self)) self))%py.

(** [get_our_cinfo] *)
Definition get_our_cinfo (toLink : Link) : M ComponentBase Msg :=
  (let* pl := parent_link in
   let* self := get in
   let prio := if decide (Some toLink = pl)
               then base_priority self
               else priority self in
   ret (Cinfo SSP_VERSION SSP_MAGIC_BYTE 0 (serial self) (componentId self)
              (parent self) prio 0 0 (name self)))%py.

Section Topology.
(** The dict events of the topology handlers, which the node only hands
    on to [emit_event]: [{'text': text, 'msg': msg}] and
    [{'text': 'Ignoring lower prio', 'msg': msg, 'prio': prio}]. *)
Variable EvtTextMsg : string -> Msg -> Evt.
Variable EvtIgnoringLowerPrio : Msg -> Z -> Evt.

(** [_handle_link_newid(from_link, msg, timestamp)], where [msg] is the
    newid message with the fields [tk], [id], [prio] and [name]. *)
Definition _handle_link_newid (from_link : Link) (tk id prio : Z)
    (name : string) (timestamp : Z) : M ComponentBase unit :=
  (let msg := Newid tk id prio name in
   let parent := tk in
   when ((parent =? SSP_INVALID_COMPONENT_ID) || (parent =? SSP_LINK_ID)
         || (parent >=? SSP_COMPONENT_MODULUS))
     (error (EvtTextMsg "Invalid from" msg)) >>
   let* pl := parent_link in
   let is_from_parent_link := bool_decide (Some from_link = pl) in
   when is_from_parent_link forget_network >>
   let* self := get in
   if prio <? priority self then
     emit_event "linkEvt" (EvtIgnoringLowerPrio msg (priority self))
   else
     when (match _central self with Some _ => true | None => false end)
       (modify (set_central None) >>
        emit_event "traceEvt" (EvtText "stop acting as central")) >>
     (* Forget all existing routes. *)
     modify (set_link_neighbors ∅) >>
     modify (set_routes ∅) >>
     modify (set_componentId id) >>
     modify (set_priority prio) >>
     when (match name with EmptyString => false | _ => true end)
       (modify (set_name name) >> emit (MarkAsUpdated "name")) >>
     modify (set_parent parent) >>
     modify (fun self =>
       set_link_neighbors (<[from_link := parent]> (_link_neighbors self)) self) >>
     modify (fun self => set_routes (<[parent := from_link]> (routes self)) self) >>
     when (negb (parent =? SSP_CENTRAL_ID))
       (modify (fun self =>
          set_routes (<[SSP_CENTRAL_ID := from_link]> (routes self)) self)) >>
     emit (MarkAsUpdated "id") >>
     emit (MarkAsUpdated "priority") >>
     emit ComponentOnNetworked)%py.
End Topology.

End Componentbase.

(* ===================================================================== *)
(** ** Properties of the node *)
(* ===================================================================== *)

Module ComponentbaseFacts.
Import Ssplink Componentbase.

Ltac unfold_m :=
  unfold bind, get, modify, ret, raise, assert, when, emit_event, error, emit in *.

Lemma for_each_emit {A} (f : A -> Effect) (xs : list A) (self : ComponentBase) :
  for_each xs (fun x => emit (f x)) self
  = (Ok tt, set_log (log self ++ List.map f xs) self).
Proof.
  revert self. induction xs as [|x xs IH]; intros self; cbn [for_each List.map].
  - unfold ret. rewrite app_nil_r. now destruct self.
  - unfold bind, emit at 1, modify. rewrite IH. cbn.
    now rewrite <- app_assoc.
Qed.

(** *** forget_network *)

(** A child with id 5 whose parent, the central, is reached over link 0. *)
Definition child5 : ComponentBase :=
  {| _link_neighbors := {[ 0%nat := 1 ]}; links := [Some 0%nat];
     routes := {[ 1 := 0%nat ]}; parent := 1;
     base_priority := 0; priority := 49; name := "probe"; componentId := 5;
     serial := 1234; reply_callbacks := ∅; _last_ticket := 0;
     _internal_objects := []; _central := None; log := [] |}.

(** C1 as stated fails: after [forget_network] the node still has its id
    (5) and its route to the central. *)
Lemma forget_network_keeps_id_and_routes :
  fst (forget_network child5) = Ok tt
  /\ componentId (snd (forget_network child5)) = 5
  /\ routes (snd (forget_network child5)) !! 1 = Some 0%nat
  /\ parent (snd (forget_network child5)) = 0
  /\ log (snd (forget_network child5))
     = [EmitEvent "traceEvt" (EvtText "Forget network"); ComponentOnNonNetworked].
Proof. repeat split; vm_compute; reflexivity. Qed.

(** C1 (as amended).  [forget_network] always returns; afterwards the
    parent is 0 and every link of the neighbor table maps to 0 (the
    table keeps its links), [on_non_networked] has been fired on the
    component and on every internal object, and the component id, the
    routing table and everything else are as before. *)
Theorem forget_network_effect (self : ComponentBase) :
  exists self',
    forget_network self = (Ok tt, self')
    /\ parent self' = 0
    /\ _link_neighbors self' = (fun _ => 0) <$> _link_neighbors self
    /\ (forall link, is_Some (_link_neighbors self !! link) ->
          _link_neighbors self' !! link = Some 0)
    /\ componentId self' = componentId self
    /\ routes self' = routes self
    /\ log self' = log self
         ++ [EmitEvent "traceEvt" (EvtText "Forget network");
             ComponentOnNonNetworked]
         ++ List.map (fun io => InternalOnNonNetworked (fst io))
              (_internal_objects self)
    /\ (priority self', base_priority self', reply_callbacks self',
        _last_ticket self', _central self', links self', name self',
        serial self', _internal_objects self')
       = (priority self, base_priority self, reply_callbacks self,
          _last_ticket self, _central self, links self, name self,
          serial self, _internal_objects self).
Proof.
  unfold forget_network, on_non_networked, emit_event.
  unfold bind, get. unfold emit at 1 2. unfold modify. cbn.
  rewrite for_each_emit. cbn. eexists. split; [reflexivity|]. cbn.
  repeat split.
  - intros link [n Hn]. now rewrite lookup_fmap, Hn.
  - now rewrite <- !app_assoc.
Qed.

(** *** Tickets *)

Lemma next_ticket_range last : 0 <= last <= 250 -> 1 <= next_ticket last <= 250.
Proof. unfold next_ticket. destruct (Z.geb_spec last 250); lia. Qed.

Lemma iter_next_range i last :
  0 <= last <= 250 -> 0 <= Nat.iter i next_ticket last <= 250.
Proof.
  intros H. induction i as [|i IH]; [assumption|].
  rewrite Nat.iter_succ. pose proof (next_ticket_range _ IH). lia.
Qed.

(** The [i]-th ticket tried after [last] (for [i >= 1]), in closed form. *)
Lemma iter_next_closed i last :
  0 <= last <= 250 ->
  Nat.iter (S i) next_ticket last = (last + Z.of_nat i) mod 250 + 1.
Proof.
  intros H. induction i as [|i IH].
  - rewrite Nat.iter_succ. cbn [Nat.iter nat_rect]. unfold next_ticket.
    destruct (Z.geb_spec last 250).
    + replace last with 250 by lia. reflexivity.
    + rewrite Z.add_0_r, Z.mod_small by lia. reflexivity.
  - rewrite Nat.iter_succ, IH. unfold next_ticket.
    rewrite Nat2Z.inj_succ.
    destruct (Z.geb_spec ((last + Z.of_nat i) mod 250 + 1) 250);
      Z.to_euclidean_division_equations; lia.
Qed.

(** Every ticket of 1..250 is among the 250 tickets tried after [last]. *)
Lemma iter_next_cover last t :
  0 <= last <= 250 -> 1 <= t <= 250 ->
  exists i, (1 <= i <= 250)%nat /\ Nat.iter i next_ticket last = t.
Proof.
  intros Hl Ht.
  pose proof (Z.mod_pos_bound (t - 1 - last) 250 ltac:(lia)) as Hb.
  exists (S (Z.to_nat ((t - 1 - last) mod 250))). split; [lia|].
  rewrite iter_next_closed by assumption. rewrite Z2Nat.id by lia.
  rewrite Zplus_mod_idemp_r.
  replace (last + (t - 1 - last)) with (t - 1) by lia.
  rewrite Z.mod_small by lia. lia.
Qed.

(** The loop stops on a free ticket, or has found the [n] tickets after
    [last] all taken and stands on the [n]-th. *)
Lemma advance_inv (callbacks : gmap Z Callback) n :
  forall last,
    callbacks !! advance (S n) last callbacks = None
    \/ ((forall i, (1 <= i <= S n)%nat ->
           is_Some (callbacks !! Nat.iter i next_ticket last))
        /\ advance (S n) last callbacks = Nat.iter (S n) next_ticket last).
Proof.
  induction n as [|n IH]; intros last.
  - cbn [advance]. rewrite Nat.iter_succ. cbn [Nat.iter nat_rect].
    destruct (callbacks !! next_ticket last) eqn:E; [right|left; assumption].
    split; [|reflexivity].
    intros i Hi. replace i with 1%nat by lia. cbn. now rewrite E.
  - change (advance (S (S n)) last callbacks)
      with (match callbacks !! next_ticket last with
            | None => next_ticket last
            | Some _ => advance (S n) (next_ticket last) callbacks
            end).
    destruct (callbacks !! next_ticket last) eqn:E; [|left; assumption].
    destruct (IH (next_ticket last)) as [Hfree|[Hall Heq]]; [left; assumption|].
    right. split.
    + intros i Hi. destruct i as [|[|i]]; [lia| cbn; now rewrite E |].
      specialize (Hall (S i) ltac:(lia)).
      now rewrite <- Nat.iter_succ_r in Hall.
    + rewrite Heq. now rewrite <- Nat.iter_succ_r.
Qed.

Lemma advance_range (callbacks : gmap Z Callback) n last :
  0 <= last <= 250 -> 1 <= advance (S n) last callbacks <= 250.
Proof.
  revert last. induction n as [|n IH]; intros last H.
  - cbn [advance]. pose proof (next_ticket_range _ H).
    now destruct (callbacks !! next_ticket last).
  - change (advance (S (S n)) last callbacks)
      with (match callbacks !! next_ticket last with
            | None => next_ticket last
            | Some _ => advance (S n) (next_ticket last) callbacks
            end).
    pose proof (next_ticket_range _ H).
    destruct (callbacks !! next_ticket last); [apply IH; lia | assumption].
Qed.

Definition all_occupied (self : ComponentBase) : Prop :=
  forall t, 1 <= t <= 250 -> is_Some (reply_callbacks self !! t).

(** C2 (as amended).  From a state whose [_last_ticket] is in 0..250 (as
    it is initially, and stays), [make_ticket_with_callback] returns a
    ticket of 1..250 that was not outstanding, registers the callback
    under it and remembers it; and it raises "All tickets are occupied"
    exactly when all 250 tickets 1..250 are outstanding. *)
Theorem make_ticket_range_and_exhaustion
    (self : ComponentBase) (callback : Callback) :
  0 <= _last_ticket self <= 250 ->
  (forall t self',
      make_ticket_with_callback callback self = (Ok t, self') ->
      1 <= t <= 250
      /\ reply_callbacks self !! t = None
      /\ reply_callbacks self' = <[t := callback]> (reply_callbacks self)
      /\ _last_ticket self' = t)
  /\ (fst (make_ticket_with_callback callback self)
        = Raise (Exception "All tickets are occupied")
      <-> all_occupied self)
  /\ (all_occupied self \/
      exists t self', make_ticket_with_callback callback self = (Ok t, self')).
Proof.
  intros Hlast.
  pose proof (advance_range (reply_callbacks self) 249 _ Hlast) as Hrange.
  pose proof (advance_inv (reply_callbacks self) 249 (_last_ticket self)) as Hinv.
  unfold make_ticket_with_callback. unfold_m. cbn -[advance].
  set (last := advance 250 (_last_ticket self) (reply_callbacks self)) in *.
  clearbody last.
  assert (Hocc : is_Some (reply_callbacks self !! last) -> all_occupied self).
  { intros Hsome. destruct Hinv as [Hfree|[Hall _]].
    - rewrite Hfree in Hsome. now destruct Hsome.
    - intros t Ht. destruct (iter_next_cover _ t Hlast Ht) as (i & Hi & <-).
      now apply Hall. }
  destruct (reply_callbacks self !! last) as [cb|] eqn:E; cbn.
  - split; [intros t self' [=]|]. split; [|left; eauto].
    split; [intros _; eauto | reflexivity].
  - split; [|split].
    + intros t self' [= <- <-]. cbn. auto.
    + split; [discriminate|]. intros Hall.
      destruct (Hall last Hrange) as [x Hx]. congruence.
    + right. eauto.
Qed.

(** The node after 249 tickets have been handed out and none released. *)
Definition after_249_tickets : ComponentBase :=
  Nat.iter 249 (fun self => snd (make_ticket_with_callback 0%nat self))
    (init "node" 1).

Lemma after_249_tickets_state :
  _last_ticket after_249_tickets = 249
  /\ reply_callbacks after_249_tickets
     = list_to_map ((fun i => (Z.of_nat i, 0%nat)) <$> seq 1 249).
Proof. split; vm_compute; reflexivity. Qed.

(** C2 as stated fails: with the 249 tickets 1..249 outstanding, the next
    call raises nothing and returns ticket 250, outside 1..249. *)
Lemma make_ticket_returns_250 :
  (forall t, 1 <= t <= 249 ->
     is_Some (reply_callbacks after_249_tickets !! t))
  /\ size (reply_callbacks after_249_tickets) = 249%nat
  /\ fst (make_ticket_with_callback 0%nat after_249_tickets) = Ok 250.
Proof.
  split; [|split; vm_compute; reflexivity].
  intros t Ht.
  assert (forallb (fun t =>
            match reply_callbacks after_249_tickets !! t with
            | Some _ => true
            | None => false
            end) (List.map Z.of_nat (seq 1 249)) = true) as Hall
    by (vm_compute; reflexivity).
  rewrite forallb_forall in Hall. specialize (Hall t).
  destruct (reply_callbacks after_249_tickets !! t); [eauto|].
  assert (false = true); [|discriminate]. apply Hall.
  apply in_map_iff. exists (Z.to_nat t). split; [lia|]. apply in_seq. lia.
Qed.

Lemma make_ticket_range_and_exhaustion_witness :
  (forall t self',
      make_ticket_with_callback 0%nat after_249_tickets = (Ok t, self') ->
      1 <= t <= 250
      /\ reply_callbacks after_249_tickets !! t = None
      /\ reply_callbacks self'
         = <[t := 0%nat]> (reply_callbacks after_249_tickets)
      /\ _last_ticket self' = t)
  /\ (fst (make_ticket_with_callback 0%nat after_249_tickets)
        = Raise (Exception "All tickets are occupied")
      <-> all_occupied after_249_tickets)
  /\ (all_occupied after_249_tickets \/
      exists t self',
        make_ticket_with_callback 0%nat after_249_tickets = (Ok t, self')).
Proof.
  apply (make_ticket_range_and_exhaustion after_249_tickets 0%nat).
  vm_compute. split; discriminate.
Defined.

(** C10.  [remove_ticket] never raises; on a ticket that is not
    registered it leaves the node, and so the table of reply callbacks,
    exactly as it was; in any case the ticket is not registered
    afterwards, so that a second release changes nothing. *)
Theorem remove_ticket_idempotent (self : ComponentBase) (ticket : Z) :
  (reply_callbacks self !! ticket = None ->
     remove_ticket ticket self = (Ok tt, self))
  /\ exists self',
       remove_ticket ticket self = (Ok tt, self')
       /\ reply_callbacks self' = delete ticket (reply_callbacks self)
       /\ reply_callbacks self' !! ticket = None
       /\ remove_ticket ticket self' = (Ok tt, self').
Proof.
  unfold remove_ticket. unfold_m. split.
  - intros H. now rewrite H.
  - destruct (reply_callbacks self !! ticket) as [cb|] eqn:E.
    + eexists. split; [reflexivity|]. cbn.
      rewrite lookup_delete_eq. auto.
    + exists self. rewrite E. repeat split; auto.
      symmetry. now apply delete_id.
Qed.

Lemma remove_ticket_idempotent_witness :
  (reply_callbacks (init "node" 1) !! 7 = None ->
     remove_ticket 7 (init "node" 1) = (Ok tt, init "node" 1))
  /\ exists self',
       remove_ticket 7 (init "node" 1) = (Ok tt, self')
       /\ reply_callbacks self' = delete 7 (reply_callbacks (init "node" 1))
       /\ reply_callbacks self' !! 7 = None
       /\ remove_ticket 7 self' = (Ok tt, self').
Proof. exact (remove_ticket_idempotent (init "node" 1) 7). Defined.

(** *** Routing *)

(** The node itself consumes the message: it is addressed to the node's
    own (valid) id, or to the link-local pseudo address. *)
Definition consumed_locally (self : ComponentBase) (to : Z) : bool :=
  ((to =? componentId self) && negb (componentId self =? SSP_INVALID_COMPONENT_ID))
  || (to =? SSP_LINK_ID).

Definition is_send (e : Effect) : bool :=
  match e with Send _ _ _ => true | _ => false end.

Lemma set_log_set_log l1 l2 self : set_log l2 (set_log l1 self) = set_log l2 self.
Proof. reflexivity. Qed.

Lemma existsb_is_send_map {A} (f : A -> Effect) (xs : list A) :
  (forall x, is_send (f x) = false) -> existsb is_send (List.map f xs) = false.
Proof.
  intros H. induction xs as [|x xs IH]; [reflexivity|].
  cbn. now rewrite H, IH.
Qed.

Lemma parent_link_spec (s : ComponentBase) :
  parent_link s =
  (if parent s =? 0 then Ok None
   else match routes s !! parent s with
        | Some l => Ok (Some l)
        | None => Raise KeyError
        end, s).
Proof.
  unfold parent_link, bind, get, ret, raise.
  destruct (parent s =? 0); [reflexivity|].
  now destruct (routes s !! parent s).
Qed.

(** C5.  Whatever the two local handlers do: when a message is not
    consumed by the node itself and the link chosen for it (the routing
    table entry for its component, or else the parent link) is the link
    it arrived on, [handle_message] returns, leaves the node as it was,
    sends nothing on any link, and ends by reporting an error event
    ("linkErrEvt"). *)
Theorem handle_message_never_sends_back
    (print_received_messages : bool)
    (handle_addressed handle_link_local : Link -> Msg -> Z -> M ComponentBase unit)
    (self : ComponentBase) (from_link : Link) (to : Z) (msg : Msg)
    (timestamp : Z) :
  consumed_locally self to = false ->
  next_hop self to = Some from_link ->
  exists added evt,
    handle_message print_received_messages handle_addressed handle_link_local
      from_link to msg timestamp self
    = (Ok tt, set_log (log self ++ added ++ [EmitEvent "linkErrEvt" evt]) self)
    /\ existsb is_send (added ++ [EmitEvent "linkErrEvt" evt]) = false.
Proof.
  intros Hlocal Hhop. unfold consumed_locally in Hlocal.
  apply orb_false_iff in Hlocal as [Hself Hlink].
  unfold handle_message, when, error, emit_event.
  set (pre1 := if print_received_messages then [PrintOut "Received"] else []).
  assert (H1 : forall s : ComponentBase,
             (if print_received_messages then emit (PrintOut "Received") else ret tt) s
             = (Ok tt, set_log (log s ++ pre1) s)).
  { intros s. unfold pre1. destruct print_received_messages; [reflexivity|].
    unfold ret. rewrite app_nil_r. now destruct s. }
  assert (Hpre1 : existsb is_send pre1 = false)
    by (unfold pre1; now destruct print_received_messages).
  unfold bind at 1. rewrite H1.
  destruct (Z.eqb_spec to SSP_INVALID_COMPONENT_ID) as [Hz|Hz].
  - exists (pre1 ++ [PrintOut "Warning: Dropping message without 'to'"]),
           (EvtInvalidTo msg).
    split.
    + unfold bind, emit, modify. cbn. now rewrite <- !app_assoc.
    + rewrite !existsb_app, Hpre1. reflexivity.
  - set (pre2 := match msg with
                 | Rep map => List.map (fun entry => RegisterReport (fst entry)) map
                 | _ => []
                 end).
    assert (H2 : forall s : ComponentBase,
               match msg with
               | Rep map => for_each map (fun entry => emit (RegisterReport (fst entry)))
               | _ => ret tt
               end s = (Ok tt, set_log (log s ++ pre2) s)).
    { intros s. unfold pre2. destruct msg; try apply for_each_emit;
        unfold ret; rewrite app_nil_r; now destruct s. }
    assert (Hpre2 : existsb is_send pre2 = false).
    { unfold pre2. destruct msg; try reflexivity.
      now apply existsb_is_send_map. }
    unfold bind at 1. rewrite H2. cbn [log set_log].
    unfold bind at 1, get at 1.
    cbn [componentId routes parent set_log].
    rewrite Hself, Hlink.
    unfold next_hop in Hhop.
    destruct (routes self !! (to mod SSP_COMPONENT_MODULUS)) as [to_link|] eqn:Hr.
    + injection Hhop as ->. rewrite decide_True by reflexivity.
      exists (pre1 ++ pre2), (EvtSameLink from_link msg
                "Dropping msg that would be sent back on same link").
      split.
      * unfold emit, modify. cbn. now rewrite <- !app_assoc.
      * rewrite !existsb_app, Hpre1, Hpre2. reflexivity.
    + unfold bind at 1. rewrite parent_link_spec. cbn [parent routes set_log].
      destruct (parent self =? 0); [discriminate|].
      rewrite Hhop. rewrite decide_True by reflexivity.
      exists (pre1 ++ pre2), (EvtSameParentLink from_link to msg
        "Dropping msg with unknown recipient, where msg would be sent back on same link").
      split.
      * unfold emit, modify. cbn. now rewrite <- !app_assoc.
      * rewrite !existsb_app, Hpre1, Hpre2. reflexivity.
Qed.

Lemma handle_message_never_sends_back_witness :
  consumed_locally child5 9 = false
  /\ next_hop child5 9 = Some 0%nat
  /\ exists added evt,
      handle_message false (fun _ _ _ => ret tt) (fun _ _ _ => ret tt)
        0%nat 9 (Get ["temp"]) 0 child5
      = (Ok tt, set_log (log child5 ++ added ++ [EmitEvent "linkErrEvt" evt]) child5)
      /\ existsb is_send (added ++ [EmitEvent "linkErrEvt" evt]) = false.
Proof.
  split; [reflexivity|]. split; [reflexivity|].
  apply (handle_message_never_sends_back false (fun _ _ _ => ret tt)
           (fun _ _ _ => ret tt) child5 0%nat 9 (Get ["temp"]) 0);
    reflexivity.
Defined.

(** *** Self-election *)

(** A system view component before it elects itself: not networked,
    priority 45. *)
Definition view : ComponentBase :=
  {| _link_neighbors := ∅; links := []; routes := ∅; parent := 0;
     base_priority := 45; priority := 0; name := "view"; componentId := 0;
     serial := 1; reply_callbacks := ∅; _last_ticket := 0;
     _internal_objects := []; _central := None; log := [] |}.

Lemma find_none_forall {A} (f : A -> bool) (l : list A) :
  (forall x, In x l -> f x = false) -> List.find f l = None.
Proof.
  induction l as [|x l IH]; intros H; [reflexivity|].
  cbn. rewrite (H x (or_introl eq_refl)). apply IH.
  intros y Hy. apply H. now right.
Qed.

Lemma lookup_map {A B} (f : A -> B) (l : list A) (i : nat) :
  List.map f l !! i = f <$> (l !! i).
Proof.
  revert i. induction l as [|x l IH]; intros [|i]; cbn; auto.
Qed.

Lemma on_networked_spec (s : ComponentBase) :
  on_networked s
  = (Ok tt, set_log (log s ++ ComponentOnNetworked
                       :: List.map (fun io => InternalOnNetworked (fst io))
                            (_internal_objects s)) s).
Proof.
  unfold on_networked. unfold bind, get. unfold emit at 1. unfold modify.
  cbn. rewrite for_each_emit. cbn. now rewrite <- app_assoc.
Qed.

(** C9.  When a node that is not networked (id 0) elects itself, the
    directory of its new central is built before the id changes: the
    entry made for the node itself (at the node's position in the list of
    all component bases) records id 0, while the node then takes the
    central id 1; and if no other base of the process has id 1, the
    directory has no entry with id 1 at all. *)
Theorem act_as_central_records_old_id
    (all_componentbases : list ComponentBase) (i : nat) (self : ComponentBase) :
  all_componentbases !! i = Some self ->
  componentId self = 0 ->
  _central self = None ->
  0 < base_priority self ->
  exists self' c,
    act_as_central all_componentbases self = (Ok tt, self')
    /\ componentId self' = SSP_CENTRAL_ID
    /\ priority self' = base_priority self
    /\ _central self' = Some c
    /\ Network.all_components c !! i
       = Some {| Network.id := 0; Network.name := name self;
                 Network.serial := serial self |}
    /\ ((forall b, In b all_componentbases -> componentId b <> SSP_CENTRAL_ID) ->
        Network.id_to_info c SSP_CENTRAL_ID = None
        /\ Network.is_component_registered c SSP_CENTRAL_ID = false
        /\ ~ In SSP_CENTRAL_ID (Network.get_component_ids c)).
Proof.
  intros Hi Hid Hc Hprio.
  unfold act_as_central, init_all_local, Central_act_as_central.
  unfold bind, get, assert. rewrite Hc. unfold ret at 1.
  unfold emit, modify, ret. cbn -[on_networked].
  replace (base_priority self >? 0) with true by (symmetry; apply Z.gtb_lt; lia).
  cbn -[on_networked]. rewrite on_networked_spec. cbn.
  eexists _, _. split; [reflexivity|]. cbn.
  repeat split.
  - cbn [Network.all_components]. rewrite lookup_map, Hi. cbn. now rewrite Hid.
  - unfold Network.id_to_info. cbn. apply find_none_forall.
    intros e He. apply in_map_iff in He as (b & <- & Hb). cbn.
    apply Z.eqb_neq. now apply H.
  - unfold Network.is_component_registered, Network.id_to_info. cbn.
    rewrite find_none_forall; [reflexivity|].
    intros e He. apply in_map_iff in He as (b & <- & Hb). cbn.
    apply Z.eqb_neq. now apply H.
  - unfold Network.get_component_ids. cbn. intros Hin.
    apply in_flat_map in Hin as (e & He & Hin).
    apply in_map_iff in He as (b & <- & Hb). cbn in Hin.
    destruct (componentId b =? 0); [destruct Hin|].
    destruct Hin as [Hin|[]]. now apply (H b).
Qed.

Lemma act_as_central_records_old_id_witness :
  exists self' c,
    act_as_central [view] view = (Ok tt, self')
    /\ componentId self' = SSP_CENTRAL_ID
    /\ priority self' = base_priority view
    /\ _central self' = Some c
    /\ Network.all_components c !! 0%nat
       = Some {| Network.id := 0; Network.name := name view;
                 Network.serial := serial view |}
    /\ ((forall b, In b [view] -> componentId b <> SSP_CENTRAL_ID) ->
        Network.id_to_info c SSP_CENTRAL_ID = None
        /\ Network.is_component_registered c SSP_CENTRAL_ID = false
        /\ ~ In SSP_CENTRAL_ID (Network.get_component_ids c)).
Proof.
  apply (act_as_central_records_old_id [view] 0%nat view);
    [reflexivity | reflexivity | reflexivity | reflexivity].
Defined.


(** *** Tickets, continued *)

(** X17.  Issuing a ticket and freeing it again gives the node back as it
    was, except that [_last_ticket] remembers the ticket. *)
Theorem make_then_remove_ticket
    (self self1 : ComponentBase) (callback : Callback) (t : Z) :
  make_ticket_with_callback callback self = (Ok t, self1) ->
  remove_ticket t self1 = (Ok tt, set_last_ticket t self).
Proof.
  unfold make_ticket_with_callback. unfold_m. cbn -[advance].
  set (last := advance 250 (_last_ticket self) (reply_callbacks self)).
  clearbody last.
  destruct (reply_callbacks self !! last) eqn:E; [discriminate|].
  intros [= <- <-]. unfold remove_ticket. unfold_m. cbn.
  rewrite lookup_insert_eq. cbn. unfold set_reply_callbacks, set_last_ticket. cbn.
  now rewrite delete_insert_id by exact E.
Qed.

Lemma make_then_remove_ticket_witness :
  exists t self1,
    make_ticket_with_callback 0%nat (init "node" 1) = (Ok t, self1)
    /\ remove_ticket t self1 = (Ok tt, set_last_ticket t (init "node" 1)).
Proof.
  eexists _, _. split; [vm_compute; reflexivity|].
  apply (make_then_remove_ticket (init "node" 1) _ 0%nat _).
  vm_compute. reflexivity.
Defined.




(** *** Routing, continued *)

(** What [handle_message] logs before it routes. *)
Definition logged (print_received_messages : bool) (msg : Msg) : list Effect :=
  (if print_received_messages then [PrintOut "Received"] else [])
  ++ match msg with
     | Rep map => List.map (fun entry => RegisterReport (fst entry)) map
     | _ => []
     end.

Lemma logged_no_send p msg : existsb is_send (logged p msg) = false.
Proof.
  unfold logged. rewrite existsb_app. apply orb_false_iff. split.
  - now destruct p.
  - destruct msg; try reflexivity. now apply existsb_is_send_map.
Qed.

Section Routing.
Variable print_received_messages : bool.
Variables handle_addressed handle_link_local : Link -> Msg -> Z -> M ComponentBase unit.

(** The routing part of [handle_message], case by case. *)
Lemma handle_message_routed
    (self : ComponentBase) (from_link : Link) (to : Z) (msg : Msg) (timestamp : Z) :
  consumed_locally self to = false ->
  to <> 0 ->
  handle_message print_received_messages handle_addressed handle_link_local
    from_link to msg timestamp self
  = let pre := logged print_received_messages msg in
    let done (tail : list Effect) := (Ok tt, set_log (log self ++ pre ++ tail) self) in
    let forward (l : Link) (why_default : bool) (same : Evt) :=
      if decide (l = from_link) then done [EmitEvent "linkErrEvt" same]
      else match index_of (links self) l with
           | Some ix => done [EmitEvent "routeMsgEvt" (EvtRoute ix why_default msg);
                              Send l to msg]
           | None => (Raise ValueError, set_log (log self ++ pre) self)
           end in
    match routes self !! (to mod SSP_COMPONENT_MODULUS) with
    | Some to_link =>
        forward to_link false
          (EvtSameLink from_link msg "Dropping msg that would be sent back on same link")
    | None =>
        if parent self =? 0 then done [EmitEvent "linkErrEvt" (EvtNoRoute to msg)]
        else match routes self !! parent self with
             | Some pl =>
                 forward pl true
                   (EvtSameParentLink from_link to msg
                      "Dropping msg with unknown recipient, where msg would be sent back on same link")
             | None => (Raise KeyError, set_log (log self ++ pre) self)
             end
    end.
Proof.
  intros Hlocal Hz. unfold consumed_locally in Hlocal.
  apply orb_false_iff in Hlocal as [Hself Hlink].
  unfold handle_message, when, error, emit_event, logged.
  set (pre1 := if print_received_messages then [PrintOut "Received"] else []).
  assert (H1 : forall s : ComponentBase,
             (if print_received_messages then emit (PrintOut "Received") else ret tt) s
             = (Ok tt, set_log (log s ++ pre1) s)).
  { intros s. unfold pre1. destruct print_received_messages; [reflexivity|].
    unfold ret. rewrite app_nil_r. now destruct s. }
  unfold bind at 1. rewrite H1.
  replace (to =? SSP_INVALID_COMPONENT_ID) with false
    by (symmetry; apply Z.eqb_neq; exact Hz).
  set (pre2 := match msg with
               | Rep map => List.map (fun entry => RegisterReport (fst entry)) map
               | _ => []
               end).
  assert (H2 : forall s : ComponentBase,
             match msg with
             | Rep map => for_each map (fun entry => emit (RegisterReport (fst entry)))
             | _ => ret tt
             end s = (Ok tt, set_log (log s ++ pre2) s)).
  { intros s. unfold pre2. destruct msg; try apply for_each_emit;
      unfold ret; rewrite app_nil_r; now destruct s. }
  unfold bind at 1. rewrite H2. cbn [log set_log].
  unfold bind at 1, get at 1.
  cbn [componentId routes parent set_log].
  rewrite Hself, Hlink. cbn zeta.
  destruct (routes self !! (to mod SSP_COMPONENT_MODULUS)) as [to_link|] eqn:Hr.
  - destruct (decide (to_link = from_link)).
    + unfold emit, modify. cbn. now rewrite <- !app_assoc.
    + unfold links_index, bind, get, ret, raise. cbn [links set_log].
      destruct (index_of (links self) to_link).
      * unfold emit, modify. cbn. now rewrite <- !app_assoc.
      * now rewrite <- !app_assoc.
  - unfold bind at 1. rewrite parent_link_spec. cbn [parent routes set_log].
    destruct (parent self =? 0).
    + unfold emit, modify. cbn. now rewrite <- !app_assoc.
    + destruct (routes self !! parent self) as [pl|].
      * destruct (decide (pl = from_link)).
        -- unfold emit, modify. cbn. now rewrite <- !app_assoc.
        -- unfold links_index, bind, get, ret, raise. cbn [links set_log].
           destruct (index_of (links self) pl).
           ++ unfold emit, modify. cbn. now rewrite <- !app_assoc.
           ++ now rewrite <- !app_assoc.
      * now rewrite <- !app_assoc.
Qed.
End Routing.

(** X19.  Forwarding.  Whatever the two local handlers do: when a
    message with a non-zero [to] is not consumed by the node itself, and
    the link chosen for it (routing-table entry, or else parent link) is
    another link than the one it arrived on and is at index [ix] of
    [links], [handle_message] returns, leaves the node as it was, and
    ends with the route event for [ix] followed by exactly one send: of
    the same message, to the same [to], on the chosen link. *)
Theorem handle_message_forwards
    (print_received_messages : bool)
    (handle_addressed handle_link_local : Link -> Msg -> Z -> M ComponentBase unit)
    (self : ComponentBase) (from_link l : Link) (to ix : Z) (msg : Msg)
    (timestamp : Z) :
  consumed_locally self to = false ->
  to <> 0 ->
  next_hop self to = Some l ->
  l <> from_link ->
  index_of (links self) l = Some ix ->
  exists added why_default,
    handle_message print_received_messages handle_addressed handle_link_local
      from_link to msg timestamp self
    = (Ok tt, set_log (log self ++ added
                       ++ [EmitEvent "routeMsgEvt" (EvtRoute ix why_default msg);
                           Send l to msg]) self)
    /\ existsb is_send added = false.
Proof.
  intros Hlocal Hz Hhop Hne Hix.
  rewrite handle_message_routed by assumption. cbn zeta.
  unfold next_hop in Hhop.
  destruct (routes self !! (to mod SSP_COMPONENT_MODULUS)) as [to_link|].
  - injection Hhop as ->. rewrite decide_False by exact Hne. rewrite Hix.
    eexists _, false. split; [reflexivity | apply logged_no_send].
  - destruct (parent self =? 0); [discriminate|]. rewrite Hhop.
    rewrite decide_False by exact Hne. rewrite Hix.
    eexists _, true. split; [reflexivity | apply logged_no_send].
Qed.

Lemma handle_message_forwards_witness :
  exists added why_default,
    handle_message false (fun _ _ _ => ret tt) (fun _ _ _ => ret tt)
      3%nat 9 (Get ["temp"]) 0 child5
    = (Ok tt, set_log (log child5 ++ added
                       ++ [EmitEvent "routeMsgEvt" (EvtRoute 0 why_default (Get ["temp"]));
                           Send 0%nat 9 (Get ["temp"])]) child5)
    /\ existsb is_send added = false.
Proof.
  apply (handle_message_forwards false (fun _ _ _ => ret tt) (fun _ _ _ => ret tt)
           child5 3%nat 0%nat 9 0 (Get ["temp"]) 0);
    try reflexivity; lia.
Defined.

(** X20.  No next hop.  For a message with a non-zero [to] that the
    node does not consume itself and for which there is neither a
    routing-table entry nor a routed parent: if the node has no parent
    the message is dropped with the "no route" error event, and if it has
    a parent (for which the routing table has no link) [handle_message]
    raises KeyError.  Either way nothing is sent and nothing but the log
    changes. *)
Theorem handle_message_without_next_hop
    (print_received_messages : bool)
    (handle_addressed handle_link_local : Link -> Msg -> Z -> M ComponentBase unit)
    (self : ComponentBase) (from_link : Link) (to : Z) (msg : Msg)
    (timestamp : Z) :
  consumed_locally self to = false ->
  to <> 0 ->
  next_hop self to = None ->
  exists added,
    existsb is_send added = false
    /\ handle_message print_received_messages handle_addressed handle_link_local
         from_link to msg timestamp self
       = if parent self =? 0
         then (Ok tt, set_log (log self ++ added
                               ++ [EmitEvent "linkErrEvt" (EvtNoRoute to msg)]) self)
         else (Raise KeyError, set_log (log self ++ added) self).
Proof.
  intros Hlocal Hz Hhop.
  rewrite handle_message_routed by assumption. cbn zeta.
  exists (logged print_received_messages msg). split; [apply logged_no_send|].
  unfold next_hop in Hhop.
  destruct (routes self !! (to mod SSP_COMPONENT_MODULUS)); [discriminate|].
  destruct (parent self =? 0); [reflexivity|]. now rewrite Hhop.
Qed.

Lemma handle_message_without_next_hop_witness :
  exists added,
    existsb is_send added = false
    /\ handle_message false (fun _ _ _ => ret tt) (fun _ _ _ => ret tt)
         0%nat 9 (Get ["temp"]) 0 (set_routes ∅ child5)
       = (Raise KeyError, set_log (log (set_routes ∅ child5) ++ added)
                                  (set_routes ∅ child5)).
Proof.
  apply (handle_message_without_next_hop false (fun _ _ _ => ret tt)
           (fun _ _ _ => ret tt) (set_routes ∅ child5) 0%nat 9 (Get ["temp"]) 0);
    [reflexivity | lia | reflexivity].
Defined.

(** X21.  A link that is not listed.  For a message with a non-zero [to]
    that the node does not consume itself: if the link chosen for it is
    another link than the one it arrived on but is not (or no longer) an
    element of [links], [handle_message] raises ValueError (from
    [links.index]) before anything is sent; nothing but the log changes. *)
Theorem handle_message_unlisted_link_raises
    (print_received_messages : bool)
    (handle_addressed handle_link_local : Link -> Msg -> Z -> M ComponentBase unit)
    (self : ComponentBase) (from_link l : Link) (to : Z) (msg : Msg)
    (timestamp : Z) :
  consumed_locally self to = false ->
  to <> 0 ->
  next_hop self to = Some l ->
  l <> from_link ->
  index_of (links self) l = None ->
  exists added,
    existsb is_send added = false
    /\ handle_message print_received_messages handle_addressed handle_link_local
         from_link to msg timestamp self
       = (Raise ValueError, set_log (log self ++ added) self).
Proof.
  intros Hlocal Hz Hhop Hne Hix.
  rewrite handle_message_routed by assumption. cbn zeta.
  exists (logged print_received_messages msg). split; [apply logged_no_send|].
  unfold next_hop in Hhop.
  destruct (routes self !! (to mod SSP_COMPONENT_MODULUS)) as [to_link|].
  - injection Hhop as ->. rewrite decide_False by exact Hne. now rewrite Hix.
  - destruct (parent self =? 0); [discriminate|]. rewrite Hhop.
    rewrite decide_False by exact Hne. now rewrite Hix.
Qed.

Lemma handle_message_unlisted_link_raises_witness :
  exists added,
    existsb is_send added = false
    /\ handle_message false (fun _ _ _ => ret tt) (fun _ _ _ => ret tt)
         3%nat 9 (Get ["temp"]) 0
         (set_routes {[ 1 := 4%nat ]} child5)
       = (Raise ValueError,
          set_log (log (set_routes {[ 1 := 4%nat ]} child5) ++ added)
                  (set_routes {[ 1 := 4%nat ]} child5)).
Proof.
  apply (handle_message_unlisted_link_raises false (fun _ _ _ => ret tt)
           (fun _ _ _ => ret tt) (set_routes {[ 1 := 4%nat ]} child5)
           3%nat 4%nat 9 (Get ["temp"]) 0);
    try reflexivity; lia.
Defined.

(** X22.  A registered neighbor is routed to.  After
    [register_neighbor(link, id)] the neighbor table maps the link to the
    id, and a message that arrives on another link for the component
    [id] or any of its objects ([to] congruent to [id] modulo 128), and
    that the node does not consume itself, is sent on [link], provided
    the link is listed in [links]. *)
Theorem register_neighbor_then_forward
    (print_received_messages : bool)
    (handle_addressed handle_link_local : Link -> Msg -> Z -> M ComponentBase unit)
    (self : ComponentBase) (link from_link : Link) (id to ix : Z) (msg : Msg)
    (timestamp : Z) :
  to mod SSP_COMPONENT_MODULUS = id ->
  to <> 0 ->
  consumed_locally self to = false ->
  link <> from_link ->
  index_of (links self) link = Some ix ->
  exists self1 added,
    register_neighbor link id self = (Ok tt, self1)
    /\ _link_neighbors self1 !! link = Some id
    /\ handle_message print_received_messages handle_addressed handle_link_local
         from_link to msg timestamp self1
       = (Ok tt, set_log (log self1 ++ added
                          ++ [EmitEvent "routeMsgEvt" (EvtRoute ix false msg);
                              Send link to msg]) self1)
    /\ existsb is_send added = false.
Proof.
  intros Hmod Hz Hlocal Hne Hix.
  eexists _, _. split; [reflexivity|]. split.
  - cbn. apply lookup_insert_eq.
  - rewrite handle_message_routed; [|exact Hlocal|exact Hz]. cbn zeta.
    cbn [routes set_routes set_link_neighbors links log].
    rewrite Hmod, lookup_insert_eq, decide_False by exact Hne.
    rewrite Hix. split; [reflexivity | apply logged_no_send].
Qed.

Lemma register_neighbor_then_forward_witness :
  exists self1 added,
    register_neighbor 0%nat 7 child5 = (Ok tt, self1)
    /\ _link_neighbors self1 !! 0%nat = Some 7
    /\ handle_message false (fun _ _ _ => ret tt) (fun _ _ _ => ret tt)
         3%nat 135 (Get ["temp"]) 0 self1
       = (Ok tt, set_log (log self1 ++ added
                          ++ [EmitEvent "routeMsgEvt" (EvtRoute 0 false (Get ["temp"]));
                              Send 0%nat 135 (Get ["temp"])]) self1)
    /\ existsb is_send added = false.
Proof.
  apply (register_neighbor_then_forward false (fun _ _ _ => ret tt)
           (fun _ _ _ => ret tt) child5 0%nat 3%nat 7 135 0 (Get ["temp"]) 0);
    try reflexivity; lia.
Defined.

(** *** Announcing and accepting ids *)

(** [forget_network], run. *)
Lemma forget_network_run (self : ComponentBase) :
  forget_network self
  = (Ok tt,
     set_log (log self
              ++ [EmitEvent "traceEvt" (EvtText "Forget network");
                  ComponentOnNonNetworked]
              ++ List.map (fun io => InternalOnNonNetworked (fst io))
                   (_internal_objects self))
       (set_link_neighbors ((fun _ => 0) <$> _link_neighbors self)
          (set_parent 0 self))).
Proof.
  unfold forget_network, on_non_networked, emit_event.
  unfold bind, get. unfold emit at 1 2. unfold modify. cbn.
  rewrite for_each_emit. cbn. now rewrite <- !app_assoc.
Qed.

(** X23.  What a node announces after it has forgotten its network.
    Whatever the node was before, after [forget_network] the cinfo built
    by [get_our_cinfo] for any link is built without an exception, and
    carries the component id the node had before (not 0), the parent 0,
    and the run-time [priority] (not [base_priority]). *)
Theorem get_our_cinfo_after_forget_network (self : ComponentBase) (toLink : Link) :
  exists self1,
    forget_network self = (Ok tt, self1)
    /\ get_our_cinfo toLink self1
       = (Ok (Cinfo SSP_VERSION SSP_MAGIC_BYTE 0 (serial self) (componentId self)
                    0 (priority self) 0 0 (name self)), self1).
Proof.
  rewrite forget_network_run. eexists. split; [reflexivity|].
  unfold get_our_cinfo. unfold bind at 1. rewrite parent_link_spec. reflexivity.
Qed.

Section TopologyFacts.
Variable EvtTextMsg : string -> Msg -> Evt.
Variable EvtIgnoringLowerPrio : Msg -> Z -> Evt.

(** The state of a node that has accepted the newid [(tk, id, prio,
    name)] from [from_link], up to the log. *)
Definition adopted (self : ComponentBase) (from_link : Link) (tk id prio : Z)
    (name' : string) (log' : list Effect) : ComponentBase :=
  {| _link_neighbors := {[ from_link := tk ]};
     links := links self;
     routes := <[ SSP_CENTRAL_ID := from_link ]> {[ tk := from_link ]};
     parent := tk;
     base_priority := base_priority self;
     priority := prio;
     name := match name' with EmptyString => name self | _ => name' end;
     componentId := id;
     serial := serial self;
     reply_callbacks := reply_callbacks self;
     _last_ticket := _last_ticket self;
     _internal_objects := _internal_objects self;
     _central := None;
     log := log' |}.

(** X24.  Accepting a new id.  If the lookup of the parent link does not
    fail and the priority of the newid is not below the node's,
    [_handle_link_newid] returns with: the id and priority of the
    message, the parent [tk], a neighbor table that holds just the
    arrival link (mapped to [tk]), a routing table that holds just [tk]
    and the central id 1 (both on the arrival link), no central role, and
    the name of the message unless that is empty.  This holds for every
    [tk]: an invalid one (0, 255, 128 or more) is reported but adopted
    all the same.  If [tk] is not 0, every destination then has the
    arrival link as its next hop. *)
Theorem handle_link_newid_adopts
    (self : ComponentBase) (from_link : Link) (tk id prio : Z) (name' : string)
    (timestamp : Z) :
  parent self = 0 \/ is_Some (routes self !! parent self) ->
  priority self <= prio ->
  exists log',
    _handle_link_newid EvtTextMsg EvtIgnoringLowerPrio from_link tk id prio name'
      timestamp self
    = (Ok tt, adopted self from_link tk id prio name' log')
    /\ (tk <> 0 ->
        forall to, next_hop (adopted self from_link tk id prio name' log') to
                   = Some from_link).
Proof.
  intros Hpl Hprio.
  assert (forall log', tk <> 0 ->
            forall to, next_hop (adopted self from_link tk id prio name' log') to
                       = Some from_link) as Hhop.
  { intros log' Htk to. unfold next_hop, adopted. cbn [routes parent].
    destruct (Z.eq_dec (to mod SSP_COMPONENT_MODULUS) SSP_CENTRAL_ID) as [->|H1].
    - now rewrite lookup_insert_eq.
    - rewrite lookup_insert_ne by congruence.
      destruct (Z.eq_dec (to mod SSP_COMPONENT_MODULUS) tk) as [->|H2].
      + now rewrite lookup_singleton_eq.
      + rewrite lookup_singleton_ne by congruence.
        replace (tk =? 0) with false by (symmetry; apply Z.eqb_neq; exact Htk).
        destruct (Z.eq_dec tk SSP_CENTRAL_ID) as [->|H3].
        * now rewrite lookup_insert_eq.
        * rewrite lookup_insert_ne by congruence. now rewrite lookup_singleton_eq. }
  enough (exists log',
    _handle_link_newid EvtTextMsg EvtIgnoringLowerPrio from_link tk id prio name'
      timestamp self
    = (Ok tt, adopted self from_link tk id prio name' log')) as [log' H]
    by (exists log'; split; [exact H | apply Hhop]).
  unfold _handle_link_newid.
  set (invalid := (tk =? SSP_INVALID_COMPONENT_ID) || (tk =? SSP_LINK_ID)
                  || (tk >=? SSP_COMPONENT_MODULUS)).
  set (pre := if invalid
              then [EmitEvent "linkErrEvt"
                      (EvtTextMsg "Invalid from" (Newid tk id prio name'))]
              else []).
  assert (H1 : when invalid
                 (error (EvtTextMsg "Invalid from" (Newid tk id prio name'))) self
               = (Ok tt, set_log (log self ++ pre) self)).
  { unfold pre, when. destruct invalid; [reflexivity|].
    unfold ret. rewrite app_nil_r. now destruct self. }
  unfold bind at 1. rewrite H1. clearbody pre. clear H1. clearbody invalid.
  unfold bind at 1. rewrite parent_link_spec. cbn [parent routes set_log].
  assert (exists pl,
            (if parent self =? 0 then Ok None
             else match routes self !! parent self with
                  | Some l => Ok (Some l)
                  | None => Raise KeyError
                  end) = Ok pl) as [pl ->].
  { destruct Hpl as [->|[l ->]]; [now exists None|].
    destruct (parent self =? 0); eauto. }
  set (s0 := set_log (log self ++ pre) self).
  assert (exists s1,
            when (bool_decide (Some from_link = pl)) forget_network s0 = (Ok tt, s1)
            /\ priority s1 = priority self /\ links s1 = links self
            /\ base_priority s1 = base_priority self /\ name s1 = name self
            /\ serial s1 = serial self /\ reply_callbacks s1 = reply_callbacks self
            /\ _last_ticket s1 = _last_ticket self
            /\ _internal_objects s1 = _internal_objects self
            /\ _central s1 = _central self) as (s1 & Hs1 & Hfields).
  { unfold when. destruct (bool_decide _).
    - rewrite forget_network_run. eexists. split; [reflexivity|]. cbn. tauto.
    - eexists. split; [reflexivity|]. cbn. tauto. }
  unfold bind at 1. rewrite Hs1. unfold bind at 1, get at 1.
  destruct Hfields as (Hp & Hl & Hb & Hn & Hse & Hr & Ht & Hi & Hc).
  rewrite Hp. replace (prio <? priority self) with false
    by (symmetry; apply Z.ltb_ge; exact Hprio).
  destruct s1 as [ln1 l1 r1 p1 b1 pr1 n1 c1 se1 rc1 lt1 io1 ce1 lg1].
  cbn in Hp, Hl, Hb, Hn, Hse, Hr, Ht, Hi, Hc. subst.
  unfold adopted.
  destruct (_central self); destruct name'; destruct (Z.eqb_spec tk SSP_CENTRAL_ID);
    subst; eexists; unfold when, bind, modify, emit, emit_event, ret; cbn;
    rewrite ?insert_insert_eq, ?insert_empty; reflexivity.
Qed.

(** X25.  Ignoring a newid of lower priority.  If the lookup of the
    parent link does not fail and the priority of the newid is below the
    node's, [_handle_link_newid] returns without adopting anything: the
    node keeps its id, priority, routing table and central role.  If the
    newid came over another link than the parent link, nothing but the
    log changes; if it came over the parent link, the network has been
    forgotten first (parent 0, all neighbors unknown). *)
Theorem handle_link_newid_ignores_lower_prio
    (self : ComponentBase) (from_link : Link) (tk id prio : Z) (name' : string)
    (timestamp : Z) :
  parent self = 0 \/ is_Some (routes self !! parent self) ->
  prio < priority self ->
  exists log',
    _handle_link_newid EvtTextMsg EvtIgnoringLowerPrio from_link tk id prio name'
      timestamp self
    = (Ok tt,
       set_log log'
         (if bool_decide (Some from_link
                          = if parent self =? 0 then None
                            else routes self !! parent self)
          then set_link_neighbors ((fun _ => 0) <$> _link_neighbors self)
                 (set_parent 0 self)
          else self))
    /\ last log' = Some (EmitEvent "linkEvt"
                           (EvtIgnoringLowerPrio (Newid tk id prio name')
                                                 (priority self))).
Proof.
  intros Hpl Hprio.
  unfold _handle_link_newid.
  set (invalid := (tk =? SSP_INVALID_COMPONENT_ID) || (tk =? SSP_LINK_ID)
                  || (tk >=? SSP_COMPONENT_MODULUS)).
  set (pre := if invalid
              then [EmitEvent "linkErrEvt"
                      (EvtTextMsg "Invalid from" (Newid tk id prio name'))]
              else []).
  assert (H1 : when invalid
                 (error (EvtTextMsg "Invalid from" (Newid tk id prio name'))) self
               = (Ok tt, set_log (log self ++ pre) self)).
  { unfold pre, when. destruct invalid; [reflexivity|].
    unfold ret. rewrite app_nil_r. now destruct self. }
  unfold bind at 1. rewrite H1. clearbody pre. clear H1. clearbody invalid.
  unfold bind at 1. rewrite parent_link_spec. cbn [parent routes set_log].
  assert (exists pl,
            (if parent self =? 0 then Ok None
             else match routes self !! parent self with
                  | Some l => Ok (Some l)
                  | None => Raise KeyError
                  end) = Ok pl
            /\ pl = (if parent self =? 0 then None else routes self !! parent self))
    as (pl & -> & Hpl').
  { destruct Hpl as [->|[l ->]]; [now exists None|].
    destruct (parent self =? 0); eauto. }
  rewrite <- Hpl'. clear Hpl'.
  replace (prio <? priority self) with true by (symmetry; apply Z.ltb_lt; exact Hprio).
  unfold when. destruct (bool_decide (Some from_link = pl)).
  - unfold bind at 1. rewrite forget_network_run. unfold bind, get. cbn.
    replace (prio <? priority self) with true by (symmetry; apply Z.ltb_lt; exact Hprio).
    unfold emit_event, emit, modify. cbn. eexists. split; [reflexivity|].
    rewrite ?app_assoc. apply last_snoc.
  - unfold bind, get, ret. cbn.
    replace (prio <? priority self) with true by (symmetry; apply Z.ltb_lt; exact Hprio).
    unfold emit_event, emit, modify. cbn. eexists. split; [reflexivity|].
    rewrite ?app_assoc. apply last_snoc.
Qed.

End TopologyFacts.

Lemma handle_link_newid_adopts_witness :
  exists log',
    _handle_link_newid (fun _ _ => EvtText "dict") (fun _ _ => EvtText "dict")
      0%nat 1 5 49 "probe_1" 0 view
    = (Ok tt, adopted view 0%nat 1 5 49 "probe_1" log')
    /\ (1 <> 0 ->
        forall to, next_hop (adopted view 0%nat 1 5 49 "probe_1" log') to
                   = Some 0%nat).
Proof.
  apply (handle_link_newid_adopts (fun _ _ => EvtText "dict")
           (fun _ _ => EvtText "dict") view 0%nat 1 5 49 "probe_1" 0);
    [left; reflexivity | cbn; lia].
Defined.


Lemma handle_link_newid_ignores_lower_prio_witness :
  exists log',
    _handle_link_newid (fun _ _ => EvtText "dict") (fun _ _ => EvtText "dict")
      3%nat 1 6 20 "probe_2" 0 child5
    = (Ok tt, set_log log' child5)
    /\ last log' = Some (EmitEvent "linkEvt" (EvtText "dict")).
Proof.
  apply (handle_link_newid_ignores_lower_prio
           (fun _ _ => EvtText "dict") (fun _ _ => EvtText "dict")
           child5 3%nat 1 6 20 "probe_2" 0);
    [right; eexists; reflexivity | cbn; lia].
Defined.

End ComponentbaseFacts.

Module NetworkFacts.
Import Ssplink Network.

(** The directory of a central that has registered one probe. *)
Definition directory : Central :=
  {| all_components := [ {| id := 1; name := "view"; serial := 1 |};
                         {| id := 2; name := "probe"; serial := 1234 |} ] |}.

(** C6 (the code at the failing input).  The probe with serial 1234 and
    id 2 is found by its name and by its stringified id, but the decimal
    string of its serial finds nothing: [lookupId] answers 0. *)
Theorem lookupId_serial_string_not_found :
  lookupId directory (PyStr "1234") = SSP_INVALID_COMPONENT_ID
  /\ lookupId directory (PyInt 1234) = SSP_INVALID_COMPONENT_ID
  /\ lookupId directory (PyStr "probe") = 2
  /\ lookupId directory (PyStr "2") = 2
  /\ lookupId directory (PyStr "nobody") = SSP_INVALID_COMPONENT_ID.
Proof. repeat split; vm_compute; reflexivity. Qed.


(** *** Registration and lookup *)

Lemma is_valid_component_id_spec i :
  is_valid_component_id i = true <-> 1 <= i <= 124.
Proof.
  unfold is_valid_component_id, SSP_INVALID_COMPONENT_ID, SSP_LINK_ID,
    SSP_BIGGEST_REGULAR_COMPONENT_ID, SSP_COMPONENT_MODULUS.
  rewrite !andb_true_iff, !negb_true_iff, !Z.eqb_neq, Z.gtb_lt, Z.leb_le. lia.
Qed.

Lemma list_in_spec x l : list_in x l = true <-> In x l.
Proof.
  unfold list_in. rewrite existsb_exists. split.
  - intros (y & Hin & ->%Z.eqb_eq). exact Hin.
  - intros Hin. exists x. split; [exact Hin | apply Z.eqb_refl].
Qed.

(** On a list without duplicates, [remove] takes out every occurrence. *)
Lemma list_remove_filter x l :
  List.NoDup l -> list_remove x l = List.filter (fun y => negb (y =? x)) l.
Proof.
  induction 1 as [|y l Hy Hnd IH]; [reflexivity|].
  cbn [list_remove List.filter].
  destruct (Z.eqb_spec y x) as [->|Hne]; cbn [negb].
  - symmetry. apply List.forallb_filter_id. apply forallb_forall.
    intros z Hz. apply negb_true_iff, Z.eqb_neq. intros ->. contradiction.
  - now rewrite IH.
Qed.

Lemma filter_twice (p q : Z -> bool) l :
  List.filter q (List.filter p l) = List.filter (fun y => q y && p y) l.
Proof.
  induction l as [|y l IH]; [reflexivity|]. cbn [List.filter].
  destruct (p y); cbn [List.filter]; rewrite ?andb_true_r, ?andb_false_r;
    destruct (q y); now rewrite IH.
Qed.

(** The list [free_ids] after the loop: the ids of the range that no
    entry of the directory carries. *)
Lemma free_ids_filter (infos : list ComponentEntry) : forall free,
  List.NoDup free ->
  fold_left (fun free_ids info =>
               if list_in (id info) free_ids
               then list_remove (id info) free_ids
               else free_ids) infos free
  = List.filter (fun y => negb (list_in y (List.map id infos))) free.
Proof.
  induction infos as [|info infos IH]; intros free Hnd; cbn [fold_left List.map].
  - symmetry. apply List.forallb_filter_id. now apply forallb_forall.
  - assert ((if list_in (id info) free then list_remove (id info) free else free)
            = List.filter (fun y => negb (y =? id info)) free) as ->.
    { destruct (list_in (id info) free) eqn:E.
      - now apply list_remove_filter.
      - symmetry. apply List.forallb_filter_id. apply forallb_forall.
        intros z Hz. apply negb_true_iff, Z.eqb_neq. intros ->.
        apply list_in_spec in Hz. congruence. }
    rewrite IH by now apply List.NoDup_filter.
    rewrite filter_twice. apply List.filter_ext. intros y.
    unfold list_in. cbn [existsb]. rewrite negb_orb. apply andb_comm.
Qed.

Lemma range_spec start stop x :
  In x (range start stop) <-> start <= x < stop.
Proof.
  unfold range. rewrite in_map_iff. split.
  - intros (k & <- & Hk%in_seq). lia.
  - intros H. exists (Z.to_nat (x - start)). split; [lia|]. apply in_seq. lia.
Qed.

Lemma NoDup_range start stop : List.NoDup (range start stop).
Proof.
  unfold range. apply List.NoDup_map_NoDup_ForallPairs; [|apply List.seq_NoDup].
  intros a b _ _ H. lia.
Qed.

(** The head of a filtered range is the least element that passes. *)
Lemma filter_range_head (p : Z -> bool) : forall n start,
  match List.filter p (List.map (fun k => start + Z.of_nat k) (seq 0 n)) with
  | [] => forall x, start <= x < start + Z.of_nat n -> p x = false
  | first :: _ =>
      start <= first < start + Z.of_nat n /\ p first = true
      /\ forall x, start <= x < first -> p x = false
  end.
Proof.
  induction n as [|n IH]; intros start.
  - cbn. intros x Hx. lia.
  - cbn [seq List.map List.filter]. rewrite <- seq_shift, List.map_map.
    rewrite Z.add_0_r.
    specialize (IH (start + 1)).
    replace (List.map (fun x => start + Z.of_nat (S x)) (seq 0 n))
      with (List.map (fun k => start + 1 + Z.of_nat k) (seq 0 n))
      by (apply List.map_ext; intros k; lia).
    destruct (p start) eqn:Ep.
    + split; [lia|]. split; [exact Ep|]. intros x Hx. lia.
    + destruct (List.filter p _) as [|first rest].
      * intros x Hx. destruct (Z.eq_dec x start) as [->|Hne]; [exact Ep|].
        apply IH. lia.
      * destruct IH as (Hr & Hp & Hmin). split; [lia|]. split; [exact Hp|].
        intros x Hx. destruct (Z.eq_dec x start) as [->|Hne]; [exact Ep|].
        apply Hmin. lia.
Qed.

Lemma find_free_id_filter c :
  _find_free_id c =
  match List.filter (fun y => negb (list_in y (List.map id (all_components c))))
                    (range 1 124) with
  | [] => None
  | first :: _ => Some first
  end.
Proof.
  unfold _find_free_id. change SSP_BIGGEST_REGULAR_COMPONENT_ID with 124.
  now rewrite free_ids_filter by apply NoDup_range.
Qed.

Lemma find_free_id_spec c :
  match _find_free_id c with
  | Some first =>
      1 <= first <= 123
      /\ ~ In first (List.map id (all_components c))
      /\ forall x, 1 <= x < first -> In x (List.map id (all_components c))
  | None =>
      forall x, 1 <= x <= 123 -> In x (List.map id (all_components c))
  end.
Proof.
  rewrite find_free_id_filter. unfold range.
  pose proof (filter_range_head
                (fun y => negb (list_in y (List.map id (all_components c))))
                (Z.to_nat (124 - 1)) 1) as H.
  destruct (List.filter _ _) as [|first rest].
  - intros x Hx. specialize (H x ltac:(lia)).
    apply negb_false_iff, list_in_spec in H. exact H.
  - destruct H as (Hr & Hp & Hmin). split; [lia|]. split.
    + apply negb_true_iff in Hp. intros Hin%list_in_spec. congruence.
    + intros x Hx. specialize (Hmin x Hx).
      apply negb_false_iff, list_in_spec in Hmin. exact Hmin.
Qed.

(** X11.  [_find_free_id] returns the least id of 1..123 that no entry of
    the directory carries, and [None] exactly when every id of 1..123 is
    taken.  (So it never returns 124, which [is_valid_component_id]
    accepts, and it returns 1 whenever no entry carries the id 1.) *)
Theorem find_free_id_is_least_free c :
  match _find_free_id c with
  | Some first =>
      1 <= first <= 123
      /\ ~ In first (List.map id (all_components c))
      /\ forall x, 1 <= x < first -> In x (List.map id (all_components c))
  | None =>
      forall x, 1 <= x <= 123 -> In x (List.map id (all_components c))
  end.
Proof. apply find_free_id_spec. Qed.

Lemma find_app_Some {A} (f : A -> bool) l l' x :
  List.find f l = Some x -> List.find f (l ++ l') = Some x.
Proof.
  induction l as [|y l IH]; cbn [List.find app]; [discriminate|].
  destruct (f y); [trivial | exact IH].
Qed.

Lemma find_app_None {A} (f : A -> bool) l l' :
  List.find f l = None -> List.find f (l ++ l') = List.find f l'.
Proof.
  induction l as [|y l IH]; cbn [List.find app]; [reflexivity|].
  destruct (f y); [discriminate | exact IH].
Qed.

(** [_do_register] appends exactly one entry, with the id and the serial
    it was given. *)
Lemma do_register_entry c i n s :
  exists n',
    fst (_do_register c i n s)
    = {| all_components :=
           all_components c ++ [{| id := i; name := n'; serial := s |}] |}.
Proof.
  unfold _do_register. destruct (_name_exists c n); eexists; reflexivity.
Qed.

Lemma registered_inv c cid cname cserial i c' tr :
  register c cid cname cserial = Registered i c' tr ->
  (if negb (cserial =? 0) then serial_to_info c cserial else None) = None
  /\ (exists n', c' = {| all_components :=
        all_components c ++ [{| id := i; name := n'; serial := cserial |}] |})
  /\ ((is_valid_component_id cid = true /\ id_to_info c cid = None /\ i = cid)
      \/ (is_valid_component_id cid = true
          /\ (exists prev, id_to_info c cid = Some prev /\ serial prev <> cserial)
          /\ _find_free_id c = Some i)
      \/ (is_valid_component_id cid = false /\ cid <> 0 /\ i = cid)
      \/ (is_valid_component_id cid = false /\ cid = 0 /\ _find_free_id c = Some i)).
Proof.
  unfold register.
  destruct (is_valid_component_id cid) eqn:Hv.
  - destruct (id_to_info c cid) as [prev|] eqn:Hid.
    + destruct (Z.eqb_spec (serial prev) cserial) as [Heq|Hne]; [discriminate|].
      destruct (if negb (cserial =? 0) then serial_to_info c cserial else None);
        [discriminate|].
      destruct (_find_free_id c) as [s|] eqn:Hf; [|discriminate].
      destruct (do_register_entry c s cname cserial) as [n' Hn'].
      destruct (_do_register c s cname cserial) as [c0 tr0]. cbn [fst] in Hn'.
      intros [= <- <- <-]. split; [reflexivity|]. split; [eauto|].
      right; left. eauto.
    + destruct (if negb (cserial =? 0) then serial_to_info c cserial else None);
        [discriminate|].
      apply is_valid_component_id_spec in Hv.
      replace (cid =? 0) with false by (symmetry; apply Z.eqb_neq; lia).
      destruct (do_register_entry c cid cname cserial) as [n' Hn'].
      destruct (_do_register c cid cname cserial) as [c0 tr0]. cbn [fst] in Hn'.
      intros [= <- <- <-]. split; [reflexivity|]. split; [eauto|].
      left. auto.
  - destruct (if negb (cserial =? 0) then serial_to_info c cserial else None);
      [discriminate|].
    destruct (Z.eqb_spec cid 0) as [->|Hne].
    + destruct (_find_free_id c) as [s|] eqn:Hf; [|discriminate].
      destruct (do_register_entry c s cname cserial) as [n' Hn'].
      destruct (_do_register c s cname cserial) as [c0 tr0]. cbn [fst] in Hn'.
      intros [= <- <- <-]. split; [reflexivity|]. split; [eauto|].
      right; right; right. auto.
    + destruct (do_register_entry c cid cname cserial) as [n' Hn'].
      destruct (_do_register c cid cname cserial) as [c0 tr0]. cbn [fst] in Hn'.
      intros [= <- <- <-]. split; [reflexivity|]. split; [eauto|].
      right; right; left. auto.
Qed.

(** X12.  Registering is idempotent for a component with a serial
    number: when [register] has entered a component with a non-zero
    serial under the id [i], registering a cinfo with the same suggested
    id and serial again (under whatever name) returns the same [i] and
    leaves the directory as it is. *)
Theorem register_again_is_known c cid cname cserial i c' tr cname2 :
  cserial <> 0 ->
  register c cid cname cserial = Registered i c' tr ->
  register c' cid cname2 cserial = AlreadyKnown i.
Proof.
  intros Hs (Hser & (n' & ->) & Hcases)%registered_inv.
  replace (negb (cserial =? 0)) with true in Hser
    by (symmetry; apply negb_true_iff, Z.eqb_neq; exact Hs).
  pose (e := {| id := i; name := n'; serial := cserial |}).
  assert (serial_to_info {| all_components := all_components c ++ [e] |} cserial
          = Some e) as Hser'.
  { unfold serial_to_info in *. cbn [all_components].
    rewrite find_app_None by exact Hser. cbn. now rewrite Z.eqb_refl. }
  unfold register. fold e.
  replace (negb (cserial =? 0)) with true
    by (symmetry; apply negb_true_iff, Z.eqb_neq; exact Hs).
  rewrite Hser'.
  destruct Hcases as [(Hv & Hid & ->) | [(Hv & (prev & Hid & Hne) & Hf)
                     | [(Hv & Hne & ->) | (Hv & -> & Hf)]]]; rewrite Hv.
  - unfold id_to_info in *. cbn [all_components].
    rewrite find_app_None by exact Hid. cbn. now rewrite !Z.eqb_refl.
  - unfold id_to_info in *. cbn [all_components].
    rewrite (find_app_Some _ _ _ _ Hid).
    now replace (serial prev =? cserial) with false
      by (symmetry; apply Z.eqb_neq; exact Hne).
  - reflexivity.
  - reflexivity.
Qed.

Lemma register_again_is_known_witness :
  exists c' tr,
    register {| all_components := [{| id := 0; name := "view"; serial := 77 |}] |}
             0 "probe" 1234 = Registered 1 c' tr
    /\ register c' 0 "probe" 1234 = AlreadyKnown 1.
Proof.
  eexists _, _. split; [reflexivity|].
  refine (register_again_is_known
            {| all_components := [{| id := 0; name := "view"; serial := 77 |}] |}
            0 "probe" 1234 1 _ _ "probe" _ _); [lia | reflexivity].
Defined.

(** X13.  [register] does not validate a suggested id that it cannot use
    as it is: when the suggested id is not a valid component id and is
    not 0 (say 255, the link id, or 200), and the serial is 0 or unknown,
    the component is entered in the directory under this very id, which
    is returned. *)
Theorem register_adopts_invalid_suggested_id c cid cname cserial :
  is_valid_component_id cid = false ->
  cid <> 0 ->
  cserial = 0 \/ serial_to_info c cserial = None ->
  exists n' tr,
    register c cid cname cserial
    = Registered cid
        {| all_components :=
             all_components c ++ [{| id := cid; name := n'; serial := cserial |}] |}
        tr.
Proof.
  intros Hv Hne Hser. unfold register. rewrite Hv.
  assert ((if negb (cserial =? 0) then serial_to_info c cserial else None) = None)
    as -> by (destruct Hser as [->| ->]; [reflexivity | now destruct (negb _)]).
  replace (cid =? 0) with false by (symmetry; apply Z.eqb_neq; exact Hne).
  destruct (do_register_entry c cid cname cserial) as [n' Hn'].
  destruct (_do_register c cid cname cserial) as [c0 tr0]. cbn [fst] in Hn'.
  subst c0. eauto.
Qed.

Lemma register_adopts_invalid_suggested_id_witness :
  exists n' tr,
    register {| all_components := [{| id := 0; name := "view"; serial := 77 |}] |}
             255 "probe" 0
    = Registered 255
        {| all_components :=
             [{| id := 0; name := "view"; serial := 77 |}]
             ++ [{| id := 255; name := n'; serial := 0 |}] |}
        tr.
Proof.
  apply (register_adopts_invalid_suggested_id
           {| all_components := [{| id := 0; name := "view"; serial := 77 |}] |}
           255 "probe" 0); [reflexivity | lia | left; reflexivity].
Defined.

Lemma name_exists_spec c n :
  _name_exists c n = false <-> ~ In n (List.map name (all_components c)).
Proof.
  unfold _name_exists, name_to_info.
  induction (all_components c) as [|e l IH]; cbn [List.find List.map In].
  - tauto.
  - destruct (String.eqb_spec (name e) n) as [->|Hne].
    + split; [discriminate | intros H; exfalso; apply H; now left].
    + rewrite IH. tauto.
Qed.

Lemma pick_name_free c base ixs : forall name0,
  (exists ix, In ix ixs /\ _name_exists c (base ++ pretty ix) = false) ->
  _name_exists c (pick_name c base ixs name0) = false.
Proof.
  induction ixs as [|ix ixs IH]; intros name0 (ix0 & Hin & Hfree); [destruct Hin|].
  cbn [pick_name].
  destruct (_name_exists c (base ++ pretty ix)) eqn:E; cbn [negb]; [|exact E].
  apply IH. destruct Hin as [->|Hin]; [congruence|eauto].
Qed.

(** X14.  [_do_register] keeps the names of the directory distinct: if
    no two entries share a name, and the name of the newcomer is free or
    one of the 199 candidates "base1" .. "base199" is (where base is the
    name up to its last underscore, or the name and an underscore), then
    after [_do_register] no two entries share a name; and the trace event
    is emitted exactly when the name was taken. *)
Theorem do_register_keeps_names_distinct c i n s :
  List.NoDup (List.map name (all_components c)) ->
  _name_exists c n = false
  \/ (exists ix, 1 <= ix < 200
        /\ _name_exists c (match match_base n with
                           | Some base => base
                           | None => (n ++ "_")%string
                           end ++ pretty ix) = false) ->
  List.NoDup (List.map name (all_components (fst (_do_register c i n s))))
  /\ (snd (_do_register c i n s) = None <-> _name_exists c n = false).
Proof.
  intros Hnd Hfree. unfold _do_register.
  destruct (_name_exists c n) eqn:E; cbn [fst snd all_components].
  - destruct Hfree as [?|(ix & Hix & Hfree)]; [discriminate|].
    split; [|split; discriminate].
    rewrite List.map_app. cbn [List.map name].
    apply List.NoDup_app; [exact Hnd | repeat constructor; intros [] |].
    intros x Hx [<-|[]]. revert Hx. apply name_exists_spec.
    apply pick_name_free. exists ix. split; [|exact Hfree].
    apply range_spec. lia.
  - split; [|tauto].
    rewrite List.map_app. cbn [List.map name].
    apply List.NoDup_app; [exact Hnd | repeat constructor; intros [] |].
    intros x Hx [<-|[]]. revert Hx. now apply name_exists_spec.
Qed.

Lemma do_register_keeps_names_distinct_witness :
  List.NoDup (List.map name (all_components (fst (_do_register
     {| all_components := [{| id := 1; name := "probe_1"; serial := 5 |};
                           {| id := 2; name := "probe_2"; serial := 6 |}] |}
     3 "probe_1" 7))))
  /\ (snd (_do_register
     {| all_components := [{| id := 1; name := "probe_1"; serial := 5 |};
                           {| id := 2; name := "probe_2"; serial := 6 |}] |}
     3 "probe_1" 7) = None
      <-> _name_exists
     {| all_components := [{| id := 1; name := "probe_1"; serial := 5 |};
                           {| id := 2; name := "probe_2"; serial := 6 |}] |}
     "probe_1" = false).
Proof.
  apply (do_register_keeps_names_distinct
     {| all_components := [{| id := 1; name := "probe_1"; serial := 5 |};
                           {| id := 2; name := "probe_2"; serial := 6 |}] |}
     3 "probe_1" 7).
  - repeat constructor; cbn; intuition discriminate.
  - right. exists 3. split; [lia | reflexivity].
Defined.

(** X15.  The serial numbers of the directory have no part in
    [lookupId]: its result is the same on the directory with every serial
    replaced by 0. *)
Theorem lookupId_ignores_serials c (s : PyVal) :
  lookupId c s
  = lookupId {| all_components :=
                  List.map (fun e => {| id := id e; name := name e; serial := 0 |})
                           (all_components c) |} s.
Proof.
  unfold lookupId. cbn [all_components].
  induction (all_components c) as [|e l IH]; [reflexivity|].
  cbn [List.map id name serial py_eq]. rewrite !orb_false_r.
  destruct (_ || _); [reflexivity | exact IH].
Qed.

(** X16.  Looking a component up by its id gives the id back: when some
    entry carries the id [i] and no component is named like the decimal
    string of [i], [lookupId(i)] (and [lookupId(str(i))]) returns [i]. *)
Theorem lookupId_of_registered_id c i :
  In i (List.map id (all_components c)) ->
  ~ In (pretty i) (List.map name (all_components c)) ->
  lookupId c (PyInt i) = i /\ lookupId c (PyStr (pretty i)) = i.
Proof.
  intros Hin Hname.
  enough (lookupId c (PyInt i) = i) as H by (split; exact H).
  unfold lookupId. cbn [str].
  induction (all_components c) as [|e l IH]; [destruct Hin|].
  cbn [List.map In py_eq] in *. rewrite orb_false_r.
  destruct (String.eqb_spec (pretty i) (name e)) as [Heq|Hne];
    [exfalso; apply Hname; left; now symmetry|].
  cbn [orb].
  destruct (String.eqb_spec (pretty i) (pretty (id e))) as [Heq|Hne'].
  - symmetry. now apply (inj pretty).
  - apply IH; [|tauto]. destruct Hin as [<-|Hin]; [congruence | exact Hin].
Qed.

Lemma lookupId_of_registered_id_witness :
  lookupId {| all_components := [{| id := 1; name := "view"; serial := 1 |};
                                 {| id := 2; name := "probe"; serial := 1234 |}] |}
           (PyInt 2) = 2
  /\ lookupId {| all_components := [{| id := 1; name := "view"; serial := 1 |};
                                    {| id := 2; name := "probe"; serial := 1234 |}] |}
              (PyStr (pretty 2)) = 2.
Proof.
  apply (lookupId_of_registered_id
           {| all_components := [{| id := 1; name := "view"; serial := 1 |};
                                 {| id := 2; name := "probe"; serial := 1234 |}] |} 2).
  - cbn. tauto.
  - cbn. intuition discriminate.
Defined.

(** X26.  The first newcomer is given the id of the central.  When a
    node elects itself while no component base of the process has the id
    1, the directory of its central has no entry with the id 1 (the node
    itself is entered under the id it had before), so a component with an
    unknown serial that asks for an id without suggesting one is
    registered under the id 1: [SSP_CENTRAL_ID], the id the central node
    itself has taken. *)
Theorem first_newcomer_gets_central_id
    (all_componentbases : list Componentbase.ComponentBase)
    (self : Componentbase.ComponentBase) (cname : string) (cserial : Z) :
  Componentbase._central self = None ->
  0 < Componentbase.base_priority self ->
  (forall b, In b all_componentbases ->
     Componentbase.componentId b <> SSP_CENTRAL_ID
     /\ (cserial = 0 \/ Componentbase.serial b <> cserial)) ->
  exists self' c c' tr,
    Componentbase.act_as_central all_componentbases self = (Ok tt, self')
    /\ Componentbase.componentId self' = SSP_CENTRAL_ID
    /\ Componentbase._central self' = Some c
    /\ register c 0 cname cserial = Registered SSP_CENTRAL_ID c' tr.
Proof.
  intros Hc Hprio Hall.
  unfold Componentbase.act_as_central, Componentbase.init_all_local,
    Componentbase.Central_act_as_central.
  unfold bind, get, assert. rewrite Hc. unfold ret at 1.
  unfold Componentbase.emit, modify, ret. cbn -[Componentbase.on_networked].
  replace (Componentbase.base_priority self >? 0) with true
    by (symmetry; apply Z.gtb_lt; lia).
  cbn -[Componentbase.on_networked].
  rewrite ComponentbaseFacts.on_networked_spec. cbn.
  set (c := {| all_components := List.map _ all_componentbases |}).
  assert (_find_free_id c = Some 1) as Hfree.
  { pose proof (find_free_id_spec c) as H.
    assert (~ In 1 (List.map id (all_components c))) as Hno.
    { unfold c. cbn [all_components]. rewrite List.map_map. cbn [id].
      intros (b & Hb & Hin)%in_map_iff. now apply (Hall b Hin). }
    destruct (_find_free_id c) as [first|].
    - destruct H as (Hr & _ & Hmin). f_equal.
      destruct (Z.eq_dec first 1) as [->|Hne]; [reflexivity|].
      exfalso. apply Hno, Hmin. lia.
    - exfalso. apply Hno, H. lia. }
  assert ((if negb (cserial =? 0) then serial_to_info c cserial else None) = None)
    as Hser.
  { destruct (Z.eqb_spec cserial 0); [reflexivity|]. cbn [negb].
    unfold serial_to_info, c. cbn [all_components].
    apply ComponentbaseFacts.find_none_forall.
    intros e (b & <- & Hin)%in_map_iff. cbn [serial].
    apply Z.eqb_neq. destruct (Hall b Hin) as [_ [?|?]]; [contradiction|assumption]. }
  eexists _, c, (fst (_do_register c 1 cname cserial)),
           (snd (_do_register c 1 cname cserial)).
  split; [reflexivity|]. split; [reflexivity|]. split; [reflexivity|].
  unfold register. change (is_valid_component_id 0) with false. cbn iota.
  rewrite Hser. change (0 =? 0) with true. cbn iota. rewrite Hfree.
  destruct (_do_register c 1 cname cserial) as [c0 tr0]. reflexivity.
Qed.

Lemma first_newcomer_gets_central_id_witness :
  exists self' c c' tr,
    Componentbase.act_as_central [ComponentbaseFacts.view] ComponentbaseFacts.view
      = (Ok tt, self')
    /\ Componentbase.componentId self' = SSP_CENTRAL_ID
    /\ Componentbase._central self' = Some c
    /\ register c 0 "probe" 1234 = Registered SSP_CENTRAL_ID c' tr.
Proof.
  apply (first_newcomer_gets_central_id [ComponentbaseFacts.view]
           ComponentbaseFacts.view "probe" 1234); [reflexivity | cbn; lia |].
  intros b [<-|[]]. split; [discriminate | right; discriminate].
Defined.

End NetworkFacts.
